(** * RippleGrid: the pointer-reactive dot grid of pixel-ghost-frontend

    A shallow embedding of [src/components/RippleGrid.svelte] and the
    properties of its grid builder, ripple store, influence model and
    animation loop.

    Number model.  JavaScript numbers are read as exact rationals ([Q]):
    every arithmetic operation of the component is total and exact here.
    NaN, the infinities and rounding are outside the model, so a statement
    that depends on the value of a quotient by a configuration value
    carries the hypothesis that the divisor is not zero.  Numerical
    equality is [Qeq] ([==]).  The grid builder, whose result depends on
    how one quotient rounds, is embedded a second time on binary64 numbers
    ([Double]), and the statement about its point set is made there.  [Math.exp], [Math.hypot], [Math.sin] and [Math.cos] are
    implementation-approximated in ECMAScript; they are parameters of the
    development, constrained only by what the language fixes for them. *)

From Stdlib Require Import QArith Qround Qminmax Qabs ZArith List Lia Lqa Bool
  String Sorted.
From Stdlib Require PrimFloat FloatOps SpecFloat Uint63.
Import ListNotations.

Local Open Scope Q_scope.

(** ** JavaScript number helpers *)

Module JS.

(** [a < b] as the boolean a JavaScript comparison returns. *)
Definition ltb (a b : Q) : bool :=
  (Qnum a * QDen b <? Qnum b * QDen a)%Z.

(** [a > b]. *)
Definition gtb (a b : Q) : bool := ltb b a.

(** Truthiness of a number: every number but zero. *)
Definition truthy (a : Q) : bool := negb (Qeq_bool a 0).

(** [a || b] on numbers. *)
Definition or (a b : Q) : Q := if truthy a then a else b.

Definition Math_max (a b : Q) : Q := if ltb a b then b else a.
Definition Math_min (a b : Q) : Q := if ltb b a then b else a.
Definition Math_ceil (a : Q) : Z := Qceiling a.
Definition Math_floor (a : Q) : Z := Qfloor a.

(** [for (let i = 0; i < n; i++) body], threading the mutated state. *)
Definition for_upto {A : Type} (n : Z) (body : Z -> A -> A) (init : A) : A :=
  fold_left (fun acc i => body (Z.of_nat i) acc) (seq 0 (Z.to_nat n)) init.

(** [for (const x of xs) body]. *)
Definition for_of {A B : Type} (xs : list B) (body : B -> A -> A) (init : A) : A :=
  fold_left (fun acc x => body x acc) xs init.

(** [xs.push(x)]. *)
Definition push {A : Type} (xs : list A) (x : A) : list A := xs ++ [x].

End JS.

(** ** Data model *)

(** The tunables exported by the component. *)
Record Props := mkProps {
  spacing : Q;
  baseRadius : Q;
  amplitude : Q;
  rippleSpeed : Q;
  rippleWidth : Q;
  fadeSeconds : Q;
  color : string;
  background : string;
  auto : bool;
  autoEveryMs : Q;
  zIndex : Z
}.

Definition defaultProps : Props :=
  {| spacing := 26; baseRadius := 1; amplitude := 24 # 10;
     rippleSpeed := 240; rippleWidth := 18; fadeSeconds := 22 # 10;
     color := "rgba(118,255,3,0.9)"; background := "transparent";
     auto := false; autoEveryMs := 1600; zIndex := 0 |}.

(** A grid point, [{ x, y }]. *)
Record Point := mkPoint { px : Q; py : Q }.

(** A ripple, [{ x, y, t, strength }]; [t] is a millisecond timestamp. *)
Record Ripple := mkRipple { rx : Q; ry : Q; rt : Q; strength : Q }.

(** The component's [let] variables.  [ctx] records whether a 2D context
    has been obtained; [raf] and [autoTimer] hold scheduler handles, 0 when
    none. *)
Record State := mkState {
  ctx : bool;
  dpr : Q;
  width : Q;
  height : Q;
  points : list Point;
  ripples : list Ripple;
  raf : nat;
  autoTimer : nat;
  lastEmit : Q
}.

Definition initialState : State :=
  {| ctx := false; dpr := 1; width := 0; height := 0; points := [];
     ripples := []; raf := 0%nat; autoTimer := 0%nat; lastEmit := 0 |}.

Definition set_points (st : State) (v : list Point) : State :=
  {| ctx := ctx st; dpr := dpr st; width := width st; height := height st;
     points := v; ripples := ripples st; raf := raf st;
     autoTimer := autoTimer st; lastEmit := lastEmit st |}.

Definition set_ripples (st : State) (v : list Ripple) : State :=
  {| ctx := ctx st; dpr := dpr st; width := width st; height := height st;
     points := points st; ripples := v; raf := raf st;
     autoTimer := autoTimer st; lastEmit := lastEmit st |}.

Definition set_lastEmit (st : State) (v : Q) : State :=
  {| ctx := ctx st; dpr := dpr st; width := width st; height := height st;
     points := points st; ripples := ripples st; raf := raf st;
     autoTimer := autoTimer st; lastEmit := v |}.

Definition set_raf (st : State) (v : nat) : State :=
  {| ctx := ctx st; dpr := dpr st; width := width st; height := height st;
     points := points st; ripples := ripples st; raf := v;
     autoTimer := autoTimer st; lastEmit := lastEmit st |}.

Definition set_autoTimer (st : State) (v : nat) : State :=
  {| ctx := ctx st; dpr := dpr st; width := width st; height := height st;
     points := points st; ripples := ripples st; raf := raf st;
     autoTimer := v; lastEmit := lastEmit st |}.

(** ** Grid builder *)

(** The two quantities [buildGrid] derives along each axis: the number of
    lattice lines, [Math.ceil(extent / spacing)], and the offset of the
    first one, [(extent - (count - 1) * spacing) / 2].  Here they are read
    in exact arithmetic, which is what the program computes when none of
    its operations rounds (integer sizes and spacing, as in the default
    configuration) and the spacing is not zero; [Double] below embeds the
    same function in the program's own binary64 arithmetic. *)
Definition gridCount (extent s : Q) : Z := JS.Math_ceil (extent / s).

Definition gridOffset (extent s : Q) (count : Z) : Q :=
  (extent - (inject_Z count - 1) * s) / 2.

(** The body of [buildGrid]: two nested counting loops pushing one point per
    (row, column) pair onto an initially empty array. *)
Definition gridPoints (W H s : Q) : list Point :=
  let cols := gridCount W s in
  let rows := gridCount H s in
  let offsetX := gridOffset W s cols in
  let offsetY := gridOffset H s rows in
  JS.for_upto rows (fun r pts =>
    JS.for_upto cols (fun c pts =>
      JS.push pts {| px := offsetX + inject_Z c * s;
                     py := offsetY + inject_Z r * s |}) pts) [].

Definition buildGrid (P : Props) (st : State) : State :=
  set_points st (gridPoints (width st) (height st) (spacing P)).

(** ** Grid builder in binary64 arithmetic *)

(** [buildGrid] once more, on IEEE 754 binary64 numbers with every
    operation rounded as JavaScript rounds it. *)
Module Double.
Import PrimFloat.
Local Open Scope float_scope.

Record Point := mkPoint { px : float; py : float }.

(** The double holding the integer [z], for [0 <= z < 2^53]. *)
Definition of_Z (z : Z) : float := of_uint63 (Uint63.of_Z z).

(** [Math.ceil]: NaN, the infinities and the zeros are returned as they
    are; a finite number whose exponent is not negative is an integer
    already; otherwise the mantissa is shifted, the result being [-0] for
    an argument in (-1, 0). *)
Definition Math_ceil (a : float) : float :=
  match FloatOps.Prim2SF a with
  | SpecFloat.S754_finite sgn m e =>
      if (0 <=? e)%Z then a
      else
        let q := Z.shiftr (Z.pos m) (- e) in
        let exact := (Z.shiftl q (- e) =? Z.pos m)%Z in
        if sgn then (if (q =? 0)%Z then (-0) else - of_Z q)
        else of_Z (if exact then q else q + 1)
  | _ => a
  end.

(** The exact value of a finite double. *)
Definition toQ (a : float) : Q :=
  match FloatOps.Prim2SF a with
  | SpecFloat.S754_finite sgn m e =>
      inject_Z (if sgn then Z.neg m else Z.pos m) * (2 ^ e)%Q
  | _ => 0%Q
  end.

(** [for (let i = i0; i < n; i++) body]: the counter is a double, [i++]
    a rounded addition.  [None] when the loop is still running after
    [fuel] tests of its condition. *)
Fixpoint for_upto {A : Type} (fuel : nat) (i n : float)
    (body : float -> A -> option A) (acc : A) : option A :=
  match fuel with
  | O => None
  | S fuel' =>
      if ltb i n then
        match body i acc with
        | None => None
        | Some acc' => for_upto fuel' (i + 1) n body acc'
        end
      else Some acc
  end.

Definition gridPoints (fuel : nat) (W H s : float) : option (list Point) :=
  let cols := Math_ceil (W / s) in
  let rows := Math_ceil (H / s) in
  let offsetX := (W - (cols - 1) * s) / 2 in
  let offsetY := (H - (rows - 1) * s) / 2 in
  for_upto fuel 0 rows (fun r pts =>
    for_upto fuel 0 cols (fun c pts =>
      Some (JS.push pts {| px := offsetX + c * s; py := offsetY + r * s |}))
      pts) [].

(** The value of a loop counter started at 0 after [k] increments. *)
Definition counter (k : nat) : float := Nat.iter k (fun c => c + 1) 0.

(** The loop [for (i = 0; i < n; i++)] runs its body exactly [k] times:
    the first [k] counter values are below [n] and the next one is not. *)
Definition stopsAt (n : float) (k : nat) : bool :=
  forallb (fun j => ltb (counter j) n) (seq 0 k) && negb (ltb (counter k) n).

End Double.

(** ** Ripple store *)

(** [riplesCleanup(cutoff)]: keep the ripples spawned strictly after
    [cutoff]. *)
Definition riplesCleanup (cutoff : Q) (st : State) : State :=
  set_ripples st (filter (fun r => JS.gtb (rt r) cutoff) (ripples st)).

(** The guard of [addRipple]: [t - lastEmit < 90 && strength < 1.1]. *)
Definition rateLimited (st : State) (t s : Q) : bool :=
  JS.ltb (t - lastEmit st) 90 && JS.ltb s (11 # 10).

(** [addRipple(x, y, strength)] at clock reading [t].  Every caller in the
    component passes the strength explicitly. *)
Definition addRipple (P : Props) (t x y s : Q) (st : State) : State :=
  if rateLimited st t s then st
  else
    let st1 := set_lastEmit st t in
    let st2 := set_ripples st1
                 (JS.push (ripples st1)
                          {| rx := x; ry := y; rt := t; strength := s |}) in
    let cutoff := t - fadeSeconds P * 1000 * (12 # 10) in
    riplesCleanup cutoff st2.

(** [onPointer(e)] and [onClick(e)]; [left] and [top] come from the
    container's bounding rectangle. *)
Definition onPointer (P : Props) (t clientX clientY left top : Q)
    (st : State) : State :=
  addRipple P t (clientX - left) (clientY - top) 1 st.

Definition onClick (P : Props) (t clientX clientY left top : Q)
    (st : State) : State :=
  addRipple P t (clientX - left) (clientY - top) (16 # 10) st.

(** ** Drawing surface and scheduler *)

(** The calls [draw] makes on the 2D context.  [Arc x y r] is
    [arc(x, y, r, 0, Math.PI * 2)], a full circle. *)
Inductive CanvasOp :=
| ClearRect (x y w h : Q)
| FillStyle (s : string)
| FillRect (x y w h : Q)
| GlobalAlpha (a : Q)
| BeginPath
| Arc (x y r : Q)
| Fill.

(** A precomputed live ripple, [{ x, y, R, sigma, w }]. *)
Record Active := mkActive { ax : Q; ay : Q; aR : Q; asigma : Q; aw : Q }.

(** The component together with the browser facilities it drives: the
    frames painted so far (one list of context calls per draw pass), the
    animation-frame requests not yet served, the running interval timers,
    the next free scheduler handle, the backing-buffer size and the two
    registrations made at mount. *)
Record World := mkWorld {
  comp : State;
  frames : list (list CanvasOp);
  frameRequests : list nat;
  intervals : list nat;
  nextHandle : nat;
  canvasWidth : Z;
  canvasHeight : Z;
  observing : bool;
  listening : bool
}.

Definition initialWorld : World :=
  {| comp := initialState; frames := []; frameRequests := [];
     intervals := []; nextHandle := 1%nat; canvasWidth := 300;
     canvasHeight := 150; observing := false; listening := false |}.

Definition set_comp (w : World) (st : State) : World :=
  {| comp := st; frames := frames w; frameRequests := frameRequests w;
     intervals := intervals w; nextHandle := nextHandle w;
     canvasWidth := canvasWidth w; canvasHeight := canvasHeight w;
     observing := observing w; listening := listening w |}.

Definition paint (w : World) (ops : list CanvasOp) : World :=
  {| comp := comp w; frames := frames w ++ [ops];
     frameRequests := frameRequests w;
     intervals := intervals w; nextHandle := nextHandle w;
     canvasWidth := canvasWidth w; canvasHeight := canvasHeight w;
     observing := observing w; listening := listening w |}.

(** [requestAnimationFrame(draw)]: a fresh non-zero handle, queued. *)
Definition requestAnimationFrame (w : World) : nat * World :=
  (nextHandle w,
   {| comp := comp w; frames := frames w;
      frameRequests := frameRequests w ++ [nextHandle w];
      intervals := intervals w; nextHandle := S (nextHandle w);
      canvasWidth := canvasWidth w; canvasHeight := canvasHeight w;
      observing := observing w; listening := listening w |}).

(** [setInterval(pulse, autoEveryMs)]. *)
Definition setInterval (w : World) : nat * World :=
  (nextHandle w,
   {| comp := comp w; frames := frames w;
      frameRequests := frameRequests w;
      intervals := intervals w ++ [nextHandle w];
      nextHandle := S (nextHandle w);
      canvasWidth := canvasWidth w; canvasHeight := canvasHeight w;
      observing := observing w; listening := listening w |}).

Definition clearInterval (h : nat) (w : World) : World :=
  {| comp := comp w; frames := frames w;
     frameRequests := frameRequests w;
     intervals := filter (fun i => negb (Nat.eqb i h)) (intervals w);
     nextHandle := nextHandle w;
     canvasWidth := canvasWidth w; canvasHeight := canvasHeight w;
     observing := observing w; listening := listening w |}.

(** What the host reports when [resize] runs. *)
Record Host := mkHost {
  clientWidth : Q;
  clientHeight : Q;
  innerWidth : Q;
  innerHeight : Q;
  devicePixelRatio : Q;
  hasContext : bool
}.

(** ** Influence model, renderer and lifecycle *)

Section Component.

(** The library functions the component calls. *)
Variable Math_exp : Q -> Q.
Variable Math_hypot : Q -> Q -> Q.
Variable Math_sin : Q -> Q.
Variable Math_cos : Q -> Q.

Variable P : Props.

(** The first loop of [draw]: the live ripples at clock reading [t], each
    with its ring radius and faded weight. *)
Definition activeRipples (t : Q) (rs : list Ripple) : list Active :=
  JS.for_of rs (fun r active =>
    let age := (t - rt r) / 1000 in
    if JS.gtb age (fadeSeconds P) then active
    else JS.push active
           {| ax := rx r; ay := ry r;
              aR := age * rippleSpeed P;
              asigma := rippleWidth P;
              aw := Math_exp (- age / fadeSeconds P)
                    * JS.or (strength r) 1 |}) [].

(** The Gaussian ring response [g] of one live ripple at point [p]. *)
Definition gauss (p : Point) (r : Active) : Q :=
  let dx := px p - ax r in
  let dy := py p - ay r in
  let d := Math_hypot dx dy in
  Math_exp (- ((d - aR r) ^ 2) / (2 * asigma r ^ 2)) * aw r.

(** The inner loop of [draw]: [(bump, alpha)] accumulated over the live
    ripples. *)
Definition influence (p : Point) (active : list Active) : Q * Q :=
  JS.for_of active (fun r acc =>
    let g := gauss p r in
    (fst acc + g, JS.Math_max (snd acc) g)) (0, 0).

Definition dotRadius (bump : Q) : Q :=
  JS.Math_max (2 # 10) (baseRadius P + amplitude P * JS.Math_min 1 bump).

Definition dotOpacity (alpha : Q) : Q :=
  (3 # 10) + (7 # 10) * JS.Math_max 0 (JS.Math_min 1 alpha).

(** The context calls made for one grid point. *)
Definition drawDot (active : list Active) (p : Point) : list CanvasOp :=
  let acc := influence p active in
  let rad := dotRadius (fst acc) in
  [GlobalAlpha (dotOpacity (snd acc)); BeginPath;
   Arc (px p) (py p) rad; Fill].

(** The context calls of one draw pass at clock reading [t]. *)
Definition drawOps (t : Q) (st : State) : list CanvasOp :=
  let ops := [ClearRect 0 0 (width st) (height st)] in
  let ops :=
    if negb (String.eqb (background P) "transparent")
    then ops ++ [FillStyle (background P);
                 FillRect 0 0 (width st) (height st)]
    else ops in
  let ops := ops ++ [FillStyle (color P)] in
  let active := activeRipples t (ripples st) in
  let ops := JS.for_of (points st)
               (fun p ops => ops ++ drawDot active p) ops in
  ops ++ [GlobalAlpha 1].

(** [draw()]: nothing without a context; otherwise paint one frame and
    request the next animation frame. *)
Definition draw (t : Q) (w : World) : World :=
  if negb (ctx (comp w)) then w
  else
    let w1 := paint w (drawOps t (comp w)) in
    let (h, w2) := requestAnimationFrame w1 in
    set_comp w2 (set_raf (comp w2) h).

(** The browser serving the pending animation-frame requests: the queue
    is emptied and each queued callback (always [draw]) runs. *)
Definition animationFrame (t : Q) (w : World) : World :=
  let pending := frameRequests w in
  let w0 :=
    {| comp := comp w; frames := frames w; frameRequests := [];
       intervals := intervals w; nextHandle := nextHandle w;
       canvasWidth := canvasWidth w; canvasHeight := canvasHeight w;
       observing := observing w; listening := listening w |} in
  fold_left (fun w' _ => draw t w') pending w0.

(** A run of successive animation frames at the given clock readings. *)
Definition animationFrames (ts : list Q) (w : World) : World :=
  fold_left (fun w' t => animationFrame t w') ts w.

(** The callback given to [setInterval]; [now()] is read three times. *)
Definition autoPulse (tx ty t : Q) (st : State) : State :=
  let x := width st * ((45 # 100) + (1 # 10) * Math_sin (tx / 1200)) in
  let y := height st * ((45 # 100) + (1 # 10) * Math_cos (ty / 1400)) in
  addRipple P t x y (9 # 10) st.

Definition stopAuto (w : World) : World :=
  let w1 := if negb (Nat.eqb (autoTimer (comp w)) 0)
            then clearInterval (autoTimer (comp w)) w else w in
  set_comp w1 (set_autoTimer (comp w1) 0%nat).

Definition startAuto (w : World) : World :=
  let w1 := stopAuto w in
  if negb (auto P) then w1
  else
    let (h, w2) := setInterval w1 in
    set_comp w2 (set_autoTimer (comp w2) h).

(** [resize()] with both elements bound.  [None] is the TypeError raised
    by [ctx.setTransform] when [getContext] returned null. *)
Definition resize (host : Host) (w : World) : option World :=
  let d := JS.Math_max 1 (JS.Math_min 2 (JS.or (devicePixelRatio host) 1)) in
  let w' := JS.or (clientWidth host) (innerWidth host) in
  let h' := JS.or (clientHeight host) (innerHeight host) in
  if negb (hasContext host) then None
  else
    let st := comp w in
    let st1 :=
      {| ctx := true; dpr := d; width := w'; height := h';
         points := points st; ripples := ripples st; raf := raf st;
         autoTimer := autoTimer st; lastEmit := lastEmit st |} in
    Some {| comp := buildGrid P st1; frames := frames w;
            frameRequests := frameRequests w;
            intervals := intervals w; nextHandle := nextHandle w;
            canvasWidth := JS.Math_floor (w' * d);
            canvasHeight := JS.Math_floor (h' * d);
            observing := observing w; listening := listening w |}.

(** The [onMount] callback; [reduce] is
    [matchMedia('(prefers-reduced-motion: reduce)').matches]. *)
Definition onMount (host : Host) (reduce : bool) (t : Q) (w : World)
    : option World :=
  match resize host w with
  | None => None
  | Some w1 =>
      let w2 :=
        if negb reduce then
          let (h, w') := requestAnimationFrame w1 in
          startAuto (set_comp w' (set_raf (comp w') h))
        else draw t w1 in
      Some {| comp := comp w2; frames := frames w2;
              frameRequests := frameRequests w2;
              intervals := intervals w2; nextHandle := nextHandle w2;
              canvasWidth := canvasWidth w2;
              canvasHeight := canvasHeight w2;
              observing := true; listening := true |}
  end.

(** The arcs of a frame: one per dot drawn. *)
Definition isArc (op : CanvasOp) : bool :=
  match op with Arc _ _ _ => true | _ => false end.

Definition dotsDrawn (ops : list CanvasOp) : nat :=
  List.length (filter isArc ops).

End Component.

(** ** Reference notions used in the statements *)

(** The lattice in row-major order, as the two loops produce it. *)
Definition lattice (ox oy s : Q) (ncols nrows : nat) : list Point :=
  flat_map (fun r =>
    map (fun c => {| px := ox + inject_Z (Z.of_nat c) * s;
                     py := oy + inject_Z (Z.of_nat r) * s |})
        (seq 0 ncols))
    (seq 0 nrows).

(** A component whose surface measures [W] by [H], context obtained. *)
Definition surface (W H : Q) : State :=
  {| ctx := true; dpr := 1; width := W; height := H; points := [];
     ripples := []; raf := 0%nat; autoTimer := 0%nat; lastEmit := 0 |}.

(** [clamp(x, lo, hi)]: [x] brought back into the interval [lo, hi]. *)
Definition clamp (x lo hi : Q) : Q :=
  if Qlt_le_dec x lo then lo
  else if Qlt_le_dec hi x then hi
  else x.

(** Sum and running maximum (from 0) of a list of responses. *)
Definition sumQ (l : list Q) : Q := fold_left Qplus l 0.
Definition maxQ (l : list Q) : Q := fold_left Qmax l 0.

(** The object [draw] pushes onto [active] for a live ripple [r]. *)
Definition activeEntry (Math_exp : Q -> Q) (P : Props) (t : Q) (r : Ripple)
    : Active :=
  let age := (t - rt r) / 1000 in
  {| ax := rx r; ay := ry r; aR := age * rippleSpeed P;
     asigma := rippleWidth P;
     aw := Math_exp (- age / fadeSeconds P) * JS.or (strength r) 1 |}.

(** What [draw] emits before the first dot: the clear, the optional
    background fill and the dot colour. *)
Definition frameHeader (P : Props) (st : State) : list CanvasOp :=
  ([ClearRect 0 0 (width st) (height st)]
   ++ (if negb (String.eqb (background P) "transparent")
       then [FillStyle (background P); FillRect 0 0 (width st) (height st)]
       else []))
  ++ [FillStyle (color P)].

(** Computable stand-ins for the library functions, used to run the
    component on concrete inputs: a truncated exponential series (exact at
    0), the distance along an axis (exact when one leg is 0), and the first
    terms of the sine and cosine series. *)
Definition exp_series (q : Q) : Q := 1 + q + q * q / 2.
Definition hypot_axis (a b : Q) : Q := Qabs a + Qabs b.
Definition sin_series (q : Q) : Q := q.
Definition cos_series (q : Q) : Q := 1 - q * q / 2.

(** A host reporting a 520 x 520 container at device pixel ratio 1. *)
Definition host520 : Host :=
  {| clientWidth := 520; clientHeight := 520; innerWidth := 1024;
     innerHeight := 768; devicePixelRatio := 1; hasContext := true |}.

(** A host reporting a 52 x 52 container (a 2 x 2 grid at the default
    spacing), and one whose canvas yields no 2D context. *)
Definition host52 : Host :=
  {| clientWidth := 52; clientHeight := 52; innerWidth := 1024;
     innerHeight := 768; devicePixelRatio := 2; hasContext := true |}.

Definition hostNoContext : Host :=
  {| clientWidth := 52; clientHeight := 52; innerWidth := 1024;
     innerHeight := 768; devicePixelRatio := 1; hasContext := false |}.

(** The default tunables with the auto pulse switched on. *)
Definition autoProps : Props :=
  {| spacing := 26; baseRadius := 1; amplitude := 24 # 10;
     rippleSpeed := 240; rippleWidth := 18; fadeSeconds := 22 # 10;
     color := "rgba(118,255,3,0.9)"; background := "transparent";
     auto := true; autoEveryMs := 1600; zIndex := 0 |}.

(** ** Teardown and event dispatch *)

(** [cancelAnimationFrame(h)]. *)
Definition cancelAnimationFrame (h : nat) (w : World) : World :=
  {| comp := comp w; frames := frames w;
     frameRequests := filter (fun i => negb (Nat.eqb i h)) (frameRequests w);
     intervals := intervals w; nextHandle := nextHandle w;
     canvasWidth := canvasWidth w; canvasHeight := canvasHeight w;
     observing := observing w; listening := listening w |}.

(** The function [onMount] returns, which Svelte runs at unmount:
    disconnect the observer, cancel the pending frame, stop the timer and
    remove both listeners. *)
Definition onMountCleanup (w : World) : World :=
  let w1 := cancelAnimationFrame (raf (comp w)) w in
  let w2 := stopAuto w1 in
  {| comp := comp w2; frames := frames w2;
     frameRequests := frameRequests w2;
     intervals := intervals w2; nextHandle := nextHandle w2;
     canvasWidth := canvasWidth w2; canvasHeight := canvasHeight w2;
     observing := false; listening := false |}.

(** What the browser can deliver to a mounted component. *)
Inductive Event :=
| AnimationTick (t : Q)
| IntervalTick (h : nat) (tx ty t : Q)
| PointerMove (t clientX clientY left top : Q)
| MouseClick (t clientX clientY left top : Q)
| ContainerResized (host : Host).

Section Dispatch.

Variable Math_exp : Q -> Q.
Variable Math_hypot : Q -> Q -> Q.
Variable Math_sin : Q -> Q.
Variable Math_cos : Q -> Q.
Variable P : Props.

(** One event: a callback runs only while its registration stands (a
    queued frame, a set interval, an attached listener, a connected
    observer).  [None] is an exception escaping the callback. *)
Definition dispatch (e : Event) (w : World) : option World :=
  match e with
  | AnimationTick t => Some (animationFrame Math_exp Math_hypot P t w)
  | IntervalTick h tx ty t =>
      Some (if existsb (Nat.eqb h) (intervals w)
            then set_comp w (autoPulse Math_sin Math_cos P tx ty t (comp w))
            else w)
  | PointerMove t cx cy rleft rtop =>
      Some (if listening w
            then set_comp w (onPointer P t cx cy rleft rtop (comp w))
            else w)
  | MouseClick t cx cy rleft rtop =>
      Some (if listening w
            then set_comp w (onClick P t cx cy rleft rtop (comp w))
            else w)
  | ContainerResized host =>
      if observing w then resize P host w else Some w
  end.

Fixpoint run (es : list Event) (w : World) : option World :=
  match es with
  | [] => Some w
  | e :: es' =>
      match dispatch e w with
      | None => None
      | Some w' => run es' w'
      end
  end.

End Dispatch.

(** A short session: a frame, a move, a click, a timer firing, a resize and
    another frame. *)
Definition session : list Event :=
  [AnimationTick 1016; PointerMove 1020 30 30 0 0;
   MouseClick 1030 31 31 0 0; IntervalTick 2 2600 2600 2600;
   ContainerResized host52; AnimationTick 2616].

(** A series of insertions [(t, x, y, strength)] applied in order. *)
Definition addRipples (P : Props) (ins : list (Q * Q * Q * Q)) (st : State)
    : State :=
  fold_left (fun st' i =>
               addRipple P (fst (fst (fst i))) (snd (fst (fst i)))
                         (snd (fst i)) (snd i) st')
            ins st.

(** ** Invariants *)

(** Stored ripples are in spawn order and at least 90 ms apart. *)
Definition spaced90 (rs : list Ripple) : Prop :=
  StronglySorted (fun a b => rt a + 90 <= rt b) rs.

(** The store under rate-limited insertions only: spaced, no ripple later
    than [lastEmit], none older than the pruning window behind it. *)
Definition storeInv (P : Props) (st : State) : Prop :=
  spaced90 (ripples st) /\
  Forall (fun r => rt r <= lastEmit st /\
                   lastEmit st - fadeSeconds P * 1000 * (12 # 10) < rt r)
         (ripples st).

(** At most one frame request is pending and it is the one [raf] holds; at
    most one interval runs and it is the one [autoTimer] holds. *)
Definition schedulerInv (w : World) : Prop :=
  (frameRequests w = [] \/ frameRequests w = [raf (comp w)]) /\
  (intervals w = [] \/
   (intervals w = [autoTimer (comp w)] /\ autoTimer (comp w) <> 0%nat)).

(** * Properties *)

(** ** Facts about the number helpers *)

Lemma ltb_lt (a b : Q) : JS.ltb a b = true <-> a < b.
Proof. unfold JS.ltb, Qlt. apply Z.ltb_lt. Qed.

Lemma ltb_ge (a b : Q) : JS.ltb a b = false <-> b <= a.
Proof. unfold JS.ltb, Qle. apply Z.ltb_ge. Qed.

Lemma Math_max_Qmax (a b : Q) : JS.Math_max a b == Qmax a b.
Proof.
  unfold JS.Math_max. destruct (JS.ltb a b) eqn:E.
  - apply ltb_lt in E. symmetry. apply Q.max_r. lra.
  - apply ltb_ge in E. symmetry. apply Q.max_l. exact E.
Qed.

Lemma Math_min_Qmin (a b : Q) : JS.Math_min a b == Qmin a b.
Proof.
  unfold JS.Math_min. destruct (JS.ltb b a) eqn:E.
  - apply ltb_lt in E. symmetry. apply Q.min_r. lra.
  - apply ltb_ge in E. symmetry. apply Q.min_l. exact E.
Qed.


Lemma fold_append_flat_map {A B : Type} (h : B -> list A) (l : list B)
    (init : list A) :
  fold_left (fun acc i => acc ++ h i) l init = init ++ flat_map h l.
Proof.
  revert init. induction l as [|b l IH]; intros init; simpl.
  - now rewrite app_nil_r.
  - rewrite IH. now rewrite <- app_assoc.
Qed.

Lemma fold_left_ext_in {A B : Type} (f g : A -> B -> A) (l : list B) :
  (forall a b, In b l -> f a b = g a b) ->
  forall init, fold_left f l init = fold_left g l init.
Proof.
  induction l as [|b l IH]; intros H init; simpl; [reflexivity|].
  rewrite H by now left. apply IH. intros a b' Hb. apply H. now right.
Qed.

(** ** Grid builder *)



(** C2, as stated, fails: on the 520 x 520 surface with spacing 26 there are
    20 lattice lines per axis, but the offset the builder computes is
    (520 - 19 * 26) / 2 = 13, not zero. *)
Lemma default_surface_offset_not_zero :
  gridCount 520 26 = 20%Z /\
  ~ gridOffset 520 26 (gridCount 520 26) == 0 /\
  option_map (fun p => (Qred (px p), Qred (py p)))
    (hd_error (points (buildGrid defaultProps (surface 520 520))))
  = Some (13, 13).
Proof.
  split; [reflexivity|]. split; [|reflexivity].
  intros H. vm_compute in H. discriminate H.
Qed.

(** C2, amended: spacing 26 on a 520 x 520 surface gives a 20 x 20 lattice
    (cols = rows = ceil(520/26) = 20, 400 points) whose offset is 13 on both
    axes: the points are (13 + 26 c, 13 + 26 r). *)
Theorem default_surface_grid :
  let st := buildGrid defaultProps (surface 520 520) in
  gridCount (width st) (spacing defaultProps) = 20%Z /\
  gridCount (height st) (spacing defaultProps) = 20%Z /\
  gridOffset (width st) (spacing defaultProps) 20 == 13 /\
  gridOffset (height st) (spacing defaultProps) 20 == 13 /\
  List.length (points st) = 400%nat /\
  map (fun p => (Qred (px p), Qred (py p))) (points st)
  = map (fun p => (px p, py p)) (lattice 13 13 26 20 20).
Proof.
  vm_compute. repeat split; reflexivity.
Qed.

(** ** Grid builder in binary64 arithmetic *)

Section DoubleGrid.

Import PrimFloat.

Lemma counter_succ (k : nat) :
  Double.counter (S k) = PrimFloat.add (Double.counter k) 1%float.
Proof. reflexivity. Qed.

Lemma stopsAt_spec (n : PrimFloat.float) (k : nat) :
  Double.stopsAt n k = true ->
  (forall j, (j < k)%nat -> PrimFloat.ltb (Double.counter j) n = true) /\
  PrimFloat.ltb (Double.counter k) n = false.
Proof.
  unfold Double.stopsAt. rewrite andb_true_iff, forallb_forall, negb_true_iff.
  intros [Hall Hstop]. split; [|exact Hstop].
  intros j Hj. apply Hall, in_seq. lia.
Qed.

(** A loop that only pushes, run from counter number [m]. *)
Lemma for_upto_push_from {A : Type} (f : PrimFloat.float -> A)
    (n : PrimFloat.float) (k : nat) :
  forall (fuel m : nat) (acc : list A),
    (forall j, (j < k)%nat ->
               PrimFloat.ltb (Double.counter (m + j)) n = true) ->
    PrimFloat.ltb (Double.counter (m + k)) n = false ->
    (k < fuel)%nat ->
    Double.for_upto fuel (Double.counter m) n
      (fun c acc' => Some (JS.push acc' (f c))) acc
    = Some (acc ++ map (fun j => f (Double.counter j)) (seq m k)).
Proof.
  induction k as [|k IH]; intros fuel m acc Hlt Hstop Hfuel.
  - destruct fuel as [|fuel]; [lia|]. cbn [Double.for_upto seq map].
    rewrite Nat.add_0_r in Hstop. rewrite Hstop. now rewrite app_nil_r.
  - destruct fuel as [|fuel]; [lia|]. cbn [Double.for_upto seq map].
    pose proof (Hlt 0%nat ltac:(lia)) as H0. rewrite Nat.add_0_r in H0.
    rewrite H0. rewrite <- counter_succ.
    rewrite (IH fuel (S m)).
    + unfold JS.push. now rewrite <- app_assoc.
    + intros j Hj. replace (S m + j)%nat with (m + S j)%nat by lia.
      apply Hlt. lia.
    + replace (S m + k)%nat with (m + S k)%nat by lia. exact Hstop.
    + lia.
Qed.

(** A loop whose body appends a block per counter value. *)
Lemma for_upto_append_from {A : Type}
    (body : PrimFloat.float -> list A -> option (list A))
    (g : PrimFloat.float -> list A) (n : PrimFloat.float) (k : nat) :
  (forall c acc, body c acc = Some (acc ++ g c)) ->
  forall (fuel m : nat) (acc : list A),
    (forall j, (j < k)%nat ->
               PrimFloat.ltb (Double.counter (m + j)) n = true) ->
    PrimFloat.ltb (Double.counter (m + k)) n = false ->
    (k < fuel)%nat ->
    Double.for_upto fuel (Double.counter m) n body acc
    = Some (acc ++ flat_map (fun j => g (Double.counter j)) (seq m k)).
Proof.
  intros Hbody.
  induction k as [|k IH]; intros fuel m acc Hlt Hstop Hfuel.
  - destruct fuel as [|fuel]; [lia|]. cbn [Double.for_upto seq flat_map].
    rewrite Nat.add_0_r in Hstop. rewrite Hstop. now rewrite app_nil_r.
  - destruct fuel as [|fuel]; [lia|]. cbn [Double.for_upto seq flat_map].
    pose proof (Hlt 0%nat ltac:(lia)) as H0. rewrite Nat.add_0_r in H0.
    rewrite H0, Hbody. rewrite <- counter_succ.
    rewrite (IH fuel (S m)).
    + now rewrite <- app_assoc.
    + intros j Hj. replace (S m + j)%nat with (m + S j)%nat by lia.
      apply Hlt. lia.
    + replace (S m + k)%nat with (m + S k)%nat by lia. exact Hstop.
    + lia.
Qed.

Lemma length_flat_map_const {A B : Type} (f : A -> list B) (n : nat)
    (l : list A) :
  (forall a, List.length (f a) = n) ->
  List.length (flat_map f l) = (List.length l * n)%nat.
Proof.
  intros H. induction l as [|a l IH]; [reflexivity|].
  cbn [flat_map List.length]. rewrite length_app, H, IH. lia.
Qed.

(** C4, as stated, fails when its formula is read in exact arithmetic:
    the builder takes the ceiling of the rounded quotient.  With width 33
    and spacing 3.3 the quotient rounds to 10 and the builder makes 10
    columns (100 points on a 33 x 33 surface), while the exact quotient of
    the two doubles is above 10 and its ceiling is 11.  With width 153 and
    spacing 5.1 the quotient rounds to 30.000000000000004 and the builder
    makes 31 columns running from x = 0 to x = 153, while the ceiling of
    153 / 5.1 is 30. *)
Lemma binary64_columns_differ_from_exact_ceiling :
  (Double.Math_ceil (33 / (33 / 10)) = 10%float /\
   option_map (@List.length Double.Point)
     (Double.gridPoints 11 33 33 (33 / 10)) = Some 100%nat /\
   Qceiling (Double.toQ 33 / Double.toQ (33 / 10)) = 11%Z)
  /\
  (Double.Math_ceil (153 / (51 / 10)) = 31%float /\
   option_map (fun pts => (hd_error pts, last pts (Double.mkPoint 1 1)))
     (Double.gridPoints 32 153 153 (51 / 10))
   = Some (Some (Double.mkPoint 0 0), Double.mkPoint 153 153) /\
   Qceiling (153 / (51 # 10)) = 30%Z).
Proof.
  repeat split; vm_compute; reflexivity.
Qed.

(** C4, amended: for every width W, height H and spacing s > 0 for which
    both counting loops end (nc counter values lie below cols, nr below
    rows), the grid builder produces exactly the points
    (offsetX + c s, offsetY + r s) for the counter values c below cols and
    r below rows, one per pair, where cols = ceil(W/s), rows = ceil(H/s),
    offsetX = (W - (cols-1) s)/2 and offsetY = (H - (rows-1) s)/2 and every
    operation is the program's binary64 operation: the quotient is rounded
    before its ceiling is taken. *)
Theorem binary64_grid_lattice (fuel nr nc : nat) (W H s : float) :
  ltb 0 s = true ->
  let cols := Double.Math_ceil (W / s) in
  let rows := Double.Math_ceil (H / s) in
  let offsetX := ((W - (cols - 1) * s) / 2)%float in
  let offsetY := ((H - (rows - 1) * s) / 2)%float in
  Double.stopsAt cols nc = true -> Double.stopsAt rows nr = true ->
  (nc < fuel)%nat -> (nr < fuel)%nat ->
  exists pts : list Double.Point,
    Double.gridPoints fuel W H s = Some pts /\
    (forall p : Double.Point,
       In p pts <->
       exists c r : nat,
         (c < nc)%nat /\ (r < nr)%nat /\
         p = {| Double.px := offsetX + Double.counter c * s;
                Double.py := offsetY + Double.counter r * s |}) /\
    List.length pts = (nr * nc)%nat.
Proof.
  intros _ cols rows offsetX offsetY Hc Hr Hfc Hfr.
  apply stopsAt_spec in Hc as [Hc1 Hc2].
  apply stopsAt_spec in Hr as [Hr1 Hr2].
  set (g := fun r : float =>
              map (fun j => {| Double.px := offsetX + Double.counter j * s;
                               Double.py := offsetY + r * s |}) (seq 0 nc)).
  assert (E : Double.gridPoints fuel W H s
              = Some ([] ++ flat_map (fun i => g (Double.counter i))
                                     (seq 0 nr))).
  { unfold Double.gridPoints. fold cols rows offsetX offsetY.
    change 0%float with (Double.counter 0).
    apply (for_upto_append_from _ g rows nr).
    - intros r acc. unfold g.
      exact (for_upto_push_from
               (fun c => {| Double.px := offsetX + c * s;
                            Double.py := offsetY + r * s |})
               cols nc fuel 0%nat acc Hc1 Hc2 Hfc).
    - exact Hr1.
    - exact Hr2.
    - exact Hfr. }
  cbn [app] in E. eexists. split; [exact E|]. split.
  - intros p. rewrite in_flat_map. split.
    + intros (r & Hin & Hp). unfold g in Hp.
      apply in_map_iff in Hp as (c & Hp & Hc).
      apply in_seq in Hin, Hc. exists c, r. repeat split; try lia.
      now symmetry.
    + intros (c & r & Hc & Hrr & ->). exists r. split.
      * apply in_seq. lia.
      * unfold g. apply in_map_iff. exists c. split; [reflexivity|].
        apply in_seq. lia.
  - rewrite (length_flat_map_const _ nc).
    + now rewrite length_seq.
    + intros a. unfold g. now rewrite length_map, length_seq.
Qed.

Lemma binary64_grid_lattice_witness :
  (ltb 0 (51 / 10) = true /\
   Double.stopsAt (Double.Math_ceil (153 / (51 / 10))) 31 = true) /\
  exists pts : list Double.Point,
    Double.gridPoints 32 153 153 (51 / 10) = Some pts /\
    List.length pts = (31 * 31)%nat.
Proof.
  split; [split; reflexivity|].
  destruct (binary64_grid_lattice 32 31 31 153 153 (51 / 10)
              eq_refl eq_refl eq_refl (Nat.lt_succ_diag_r 31)
              (Nat.lt_succ_diag_r 31)) as (pts & E & _ & L).
  exists pts. split; [exact E|exact L].
Defined.

(** The first counter values are the integers they stand for. *)
Example counter_values :
  map Double.counter (seq 0 6) = [0; 1; 2; 3; 4; 5]%float.
Proof. reflexivity. Qed.

(** On the default 520 x 520 surface no operation rounds: the binary64
    builder returns the same 400 points as the exact one. *)
Example default_surface_grid_binary64 :
  option_map
    (map (fun p => (Qred (Double.toQ (Double.px p)),
                    Qred (Double.toQ (Double.py p)))))
    (Double.gridPoints 21 520 520 26)
  = Some (map (fun p => (Qred (px p), Qred (py p)))
              (points (buildGrid defaultProps (surface 520 520)))).
Proof.
  vm_compute. reflexivity.
Qed.

End DoubleGrid.

(** ** Ripple store *)

Lemma ripples_riplesCleanup (cutoff : Q) (st : State) :
  ripples (riplesCleanup cutoff st)
  = filter (fun r => JS.gtb (rt r) cutoff) (ripples st).
Proof. reflexivity. Qed.

(** C5: after [riplesCleanup cutoff] no remaining ripple was spawned at or
    before the cutoff, every ripple spawned strictly after it is still
    there, and nothing new appears. *)
Theorem riplesCleanup_prunes (cutoff : Q) (st : State) :
  (forall r, In r (ripples (riplesCleanup cutoff st)) -> ~ rt r <= cutoff)
  /\ (forall r, In r (ripples st) -> cutoff < rt r ->
                In r (ripples (riplesCleanup cutoff st)))
  /\ (forall r, In r (ripples (riplesCleanup cutoff st)) ->
                In r (ripples st)).
Proof.
  rewrite ripples_riplesCleanup. repeat split.
  - intros r Hr Hle. apply filter_In in Hr as [_ Hr].
    apply ltb_lt in Hr. lra.
  - intros r Hr Hlt. apply filter_In. split; [exact Hr|].
    apply ltb_lt. exact Hlt.
  - intros r Hr. apply filter_In in Hr. tauto.
Qed.

Lemma riplesCleanup_prunes_witness :
  let st := set_ripples initialState
              [ {| rx := 1; ry := 1; rt := 100; strength := 1 |};
                {| rx := 2; ry := 2; rt := 300; strength := 1 |} ] in
  In {| rx := 2; ry := 2; rt := 300; strength := 1 |}
     (ripples (riplesCleanup 100 st)).
Proof.
  intros st.
  apply (proj1 (proj2 (riplesCleanup_prunes 100 st))).
  - simpl. right. left. reflexivity.
  - reflexivity.
Defined.

(** An insertion that passes the guard stamps [lastEmit], pushes the ripple
    and prunes. *)
Lemma addRipple_accepted (P : Props) (t x y s : Q) (st : State) :
  rateLimited st t s = false ->
  lastEmit (addRipple P t x y s st) = t /\
  ripples (addRipple P t x y s st)
  = filter (fun r => JS.gtb (rt r) (t - fadeSeconds P * 1000 * (12 # 10)))
           (ripples st ++ [{| rx := x; ry := y; rt := t; strength := s |}]).
Proof.
  intros H. unfold addRipple. rewrite H. split; reflexivity.
Qed.

Lemma addRipple_rejected (P : Props) (t x y s : Q) (st : State) :
  rateLimited st t s = true -> addRipple P t x y s st = st.
Proof. intros H. unfold addRipple. now rewrite H. Qed.

Lemma rateLimited_true (st : State) (t s : Q) :
  rateLimited st t s = true <-> t - lastEmit st < 90 /\ s < 11 # 10.
Proof.
  unfold rateLimited. rewrite andb_true_iff, !ltb_lt. reflexivity.
Qed.

Lemma rateLimited_false (st : State) (t s : Q) :
  rateLimited st t s = false <-> 90 <= t - lastEmit st \/ 11 # 10 <= s.
Proof.
  unfold rateLimited. rewrite andb_false_iff, !ltb_ge. reflexivity.
Qed.

(** With a positive fade duration the ripple just pushed survives the
    pruning that follows. *)
Lemma addRipple_accepted_stored (P : Props) (t x y s : Q) (st : State) :
  rateLimited st t s = false -> 0 < fadeSeconds P ->
  In {| rx := x; ry := y; rt := t; strength := s |}
     (ripples (addRipple P t x y s st)).
Proof.
  intros H Hf. destruct (addRipple_accepted P t x y s st H) as [_ ->].
  apply filter_In. split.
  - apply in_or_app. right. now left.
  - apply ltb_lt. simpl. lra.
Qed.

(** C3, as stated, fails: after a click accepted at 1000 ms, two pointer
    moves at 1050 ms and 1100 ms are 50 ms apart, yet the first is rejected
    and the second is the one accepted. *)
Lemma second_of_two_close_moves_accepted :
  let st0 := onClick defaultProps 1000 1 1 0 0 initialState in
  let st1 := onPointer defaultProps 1050 5 5 0 0 st0 in
  let st2 := onPointer defaultProps 1100 6 6 0 0 st1 in
  1100 - 1050 < 90 /\
  st1 = st0 /\
  ripples st0 = [ {| rx := 1; ry := 1; rt := 1000; strength := 16 # 10 |} ] /\
  ripples st2
  = [ {| rx := 1; ry := 1; rt := 1000; strength := 16 # 10 |};
      {| rx := 6; ry := 6; rt := 1100; strength := 1 |} ].
Proof.
  repeat split.
Qed.

(** C3, amended: of two move insertions (strength 1) less than 90 ms apart
    whose first is accepted, only the first is accepted: the second leaves
    the component as the first left it.  An insertion of strength at least
    1.1 (a click has 1.6) passes the limiter whatever the time since the
    last accepted one.  An accepted ripple is in the store when the fade
    duration is positive. *)
Theorem rate_limit_moves_and_clicks (P : Props) (st : State) :
  (forall t1 t2 x1 y1 x2 y2 : Q,
     rateLimited st t1 1 = false -> t2 - t1 < 90 ->
     let st1 := addRipple P t1 x1 y1 1 st in
     lastEmit st1 = t1 /\
     rateLimited st1 t2 1 = true /\
     addRipple P t2 x2 y2 1 st1 = st1 /\
     (0 < fadeSeconds P ->
      In {| rx := x1; ry := y1; rt := t1; strength := 1 |} (ripples st1)))
  /\
  (forall t x y s : Q,
     11 # 10 <= s ->
     let st' := addRipple P t x y s st in
     rateLimited st t s = false /\
     lastEmit st' = t /\
     (0 < fadeSeconds P ->
      In {| rx := x; ry := y; rt := t; strength := s |} (ripples st')))
  /\
  (forall t cx cy left top : Q,
     onPointer P t cx cy left top st
       = addRipple P t (cx - left) (cy - top) 1 st /\
     onClick P t cx cy left top st
       = addRipple P t (cx - left) (cy - top) (16 # 10) st /\
     lastEmit (onClick P t cx cy left top st) = t).
Proof.
  split; [|split].
  - intros t1 t2 x1 y1 x2 y2 Hacc Hclose st1.
    assert (Hl : lastEmit st1 = t1)
      by apply (addRipple_accepted P t1 x1 y1 1 st Hacc).
    assert (Hrej : rateLimited st1 t2 1 = true).
    { apply rateLimited_true. rewrite Hl. split; [exact Hclose|reflexivity]. }
    repeat split; trivial.
    + now apply addRipple_rejected.
    + intros Hf. now apply addRipple_accepted_stored.
  - intros t x y s Hs st'.
    assert (Hacc : rateLimited st t s = false)
      by (apply rateLimited_false; now right).
    repeat split; trivial.
    + apply (addRipple_accepted P t x y s st Hacc).
    + intros Hf. now apply addRipple_accepted_stored.
  - intros t cx cy left top. split; [reflexivity|]. split; [reflexivity|].
    unfold onClick. apply addRipple_accepted, rateLimited_false.
    right. vm_compute. discriminate.
Qed.

Lemma rate_limit_moves_and_clicks_witness :
  let st := addRipple defaultProps 1000 1 1 1 initialState in
  (rateLimited st 1100 1 = false /\ 1150 - 1100 < 90 /\
   addRipple defaultProps 1150 3 3 1 (addRipple defaultProps 1100 2 2 1 st)
   = addRipple defaultProps 1100 2 2 1 st)
  /\
  (11 # 10 <= 16 # 10 /\
   lastEmit (addRipple defaultProps 1010 7 7 (16 # 10) st) = 1010).
Proof.
  intros st.
  pose proof (rate_limit_moves_and_clicks defaultProps st) as [Hmove Hclick].
  split.
  - assert (Ha : rateLimited st 1100 1 = false) by reflexivity.
    assert (Hc : 1150 - 1100 < 90) by reflexivity.
    split; [exact Ha|]. split; [exact Hc|].
    exact (proj1 (proj2 (proj2 (Hmove 1100 1150 2 2 3 3 Ha Hc)))).
  - assert (Hs : 11 # 10 <= 16 # 10) by (vm_compute; discriminate).
    split; [exact Hs|].
    exact (proj1 (proj2 (proj1 Hclick 1010 7 7 (16 # 10) Hs))).
Defined.

(** C9: an insertion rejected by the limiter (less than 90 ms since the last
    accepted one, strength below 1.1) leaves the whole component state as it
    was: no ripple appended, [lastEmit] not updated, nothing pruned. *)
Theorem rejected_insertion_changes_nothing
    (P : Props) (t x y s : Q) (st : State) :
  t - lastEmit st < 90 -> s < 11 # 10 ->
  addRipple P t x y s st = st /\
  ripples (addRipple P t x y s st) = ripples st /\
  lastEmit (addRipple P t x y s st) = lastEmit st.
Proof.
  intros Ht Hs.
  assert (E : addRipple P t x y s st = st).
  { apply addRipple_rejected, rateLimited_true. now split. }
  rewrite E. repeat split.
Qed.

(** The witness keeps a ripple spawned at 0 ms that an accepted insertion at
    5050 ms would have pruned (cutoff 5050 - 2640). *)
Lemma rejected_insertion_changes_nothing_witness :
  let st := set_lastEmit
              (set_ripples initialState
                 [{| rx := 1; ry := 1; rt := 0; strength := 1 |}]) 5000 in
  (5050 - lastEmit st < 90 /\ 1 < 11 # 10) /\
  ripples (addRipple defaultProps 5050 2 2 1 st)
  = [{| rx := 1; ry := 1; rt := 0; strength := 1 |}] /\
  ripples (addRipple defaultProps 5050 2 2 (16 # 10) st)
  = [{| rx := 2; ry := 2; rt := 5050; strength := 16 # 10 |}].
Proof.
  intros st.
  assert (Ht : 5050 - lastEmit st < 90) by reflexivity.
  assert (Hs : 1 < 11 # 10) by reflexivity.
  split; [now split|]. split; [|reflexivity].
  exact (proj1 (proj2
    (rejected_insertion_changes_nothing defaultProps 5050 2 2 1 st Ht Hs))).
Defined.

(** ** Influence model, renderer and scheduling *)

Section Rendering.

Variable Math_exp : Q -> Q.
Variable Math_hypot : Q -> Q -> Q.
Variable Math_sin : Q -> Q.
Variable Math_cos : Q -> Q.

(** What ECMAScript fixes for [Math.exp]: it is a function of the number
    it is given, and [Math.exp(0)] is 1. *)
Hypothesis Math_exp_proper : forall a b : Q, a == b -> Math_exp a == Math_exp b.
Hypothesis Math_exp_zero : Math_exp 0 == 1.

Variable P : Props.

(** C10: the auto pulse goes through [addRipple] with strength 0.9, so a
    firing less than 90 ms after the last accepted insertion, whatever
    its strength was, adds nothing and changes nothing. *)
Theorem auto_pulse_rate_limited (st : State) (tx ty t : Q) :
  (t - lastEmit st < 90 -> autoPulse Math_sin Math_cos P tx ty t st = st)
  /\
  (forall t0 x0 y0 s0 : Q,
     rateLimited st t0 s0 = false -> t - t0 < 90 ->
     let st1 := addRipple P t0 x0 y0 s0 st in
     autoPulse Math_sin Math_cos P tx ty t st1 = st1 /\
     ripples (autoPulse Math_sin Math_cos P tx ty t st1) = ripples st1).
Proof.
  assert (Hguard : forall st', t - lastEmit st' < 90 ->
            autoPulse Math_sin Math_cos P tx ty t st' = st').
  { intros st' Ht. unfold autoPulse.
    apply addRipple_rejected, rateLimited_true.
    split; [exact Ht|reflexivity]. }
  split; [apply Hguard|].
  intros t0 x0 y0 s0 Hacc Ht st1.
  assert (E : autoPulse Math_sin Math_cos P tx ty t st1 = st1).
  { apply Hguard. unfold st1.
    destruct (addRipple_accepted P t0 x0 y0 s0 st Hacc) as [-> _].
    exact Ht. }
  rewrite E. split; reflexivity.
Qed.

(** *** Live ripples *)

Lemma activeRipples_flat_map (t : Q) (rs : list Ripple) :
  activeRipples Math_exp P t rs
  = flat_map (fun r =>
      if JS.gtb ((t - rt r) / 1000) (fadeSeconds P) then []
      else [activeEntry Math_exp P t r]) rs.
Proof.
  unfold activeRipples, JS.for_of.
  rewrite <- (app_nil_l (flat_map _ rs)).
  rewrite <- fold_append_flat_map.
  apply fold_left_ext_in. intros acc r _. cbv zeta.
  destruct (JS.gtb ((t - rt r) / 1000) (fadeSeconds P)).
  - now rewrite app_nil_r.
  - reflexivity.
Qed.

Lemma In_activeRipples (t : Q) (rs : list Ripple) (a : Active) :
  In a (activeRipples Math_exp P t rs) <->
  exists r, In r rs /\ (t - rt r) / 1000 <= fadeSeconds P /\
            a = activeEntry Math_exp P t r.
Proof.
  rewrite activeRipples_flat_map, in_flat_map. split.
  - intros (r & Hr & Ha). exists r. split; [exact Hr|].
    destruct (JS.gtb ((t - rt r) / 1000) (fadeSeconds P)) eqn:E.
    + destruct Ha.
    + apply ltb_ge in E. destruct Ha as [<-|[]]. now split.
  - intros (r & Hr & Hlive & ->). exists r. split; [exact Hr|].
    apply ltb_ge in Hlive. unfold JS.gtb. rewrite Hlive. now left.
Qed.

(** *** The Gaussian ring *)

Lemma gauss_on_ring (p : Point) (r : Active) :
  Math_hypot (px p - ax r) (py p - ay r) == aR r ->
  gauss Math_exp Math_hypot p r == aw r.
Proof.
  intros Hd. unfold gauss. cbv zeta.
  rewrite (Math_exp_proper _ 0).
  - rewrite Math_exp_zero. ring.
  - rewrite Hd. unfold Qdiv. ring.
Qed.

(** *** Accumulated influence *)

Lemma influence_fold (p : Point) (active : list Active) (b a b' a' : Q) :
  b == b' -> a == a' ->
  let acc :=
    fold_left (fun acc r =>
                 let g := gauss Math_exp Math_hypot p r in
                 (fst acc + g, JS.Math_max (snd acc) g))
              active (b, a) in
  fst acc == fold_left Qplus (map (gauss Math_exp Math_hypot p) active) b'
  /\ snd acc == fold_left Qmax (map (gauss Math_exp Math_hypot p) active) a'.
Proof.
  revert b a b' a'.
  induction active as [|r l IH]; intros b a b' a' Hb Ha; simpl.
  - now split.
  - apply IH.
    + now rewrite Hb.
    + rewrite Math_max_Qmax. now rewrite Ha.
Qed.

Lemma influence_sum_max (p : Point) (active : list Active) :
  fst (influence Math_exp Math_hypot p active)
    == sumQ (map (gauss Math_exp Math_hypot p) active)
  /\ snd (influence Math_exp Math_hypot p active)
    == maxQ (map (gauss Math_exp Math_hypot p) active).
Proof.
  unfold influence, JS.for_of, sumQ, maxQ.
  apply (influence_fold p active 0 0 0 0); reflexivity.
Qed.

(** *** Clamped radius and opacity *)

Lemma clamp_unit (x : Q) :
  JS.Math_max 0 (JS.Math_min 1 x) == clamp x 0 1.
Proof.
  unfold clamp, JS.Math_max, JS.Math_min.
  destruct (JS.ltb x 1) eqn:E1.
  - apply ltb_lt in E1. destruct (JS.ltb 0 x) eqn:E2.
    + apply ltb_lt in E2.
      destruct (Qlt_le_dec x 0); [lra|].
      destruct (Qlt_le_dec 1 x); [lra|reflexivity].
    + apply ltb_ge in E2.
      destruct (Qlt_le_dec x 0); [reflexivity|].
      destruct (Qlt_le_dec 1 x); lra.
  - apply ltb_ge in E1. simpl.
    destruct (Qlt_le_dec x 0); [lra|].
    destruct (Qlt_le_dec 1 x); [reflexivity|lra].
Qed.

Lemma clamp_unit_bounds (x : Q) : 0 <= clamp x 0 1 <= 1.
Proof.
  unfold clamp. destruct (Qlt_le_dec x 0); [lra|].
  destruct (Qlt_le_dec 1 x); lra.
Qed.

Lemma dotOpacity_clamp (alpha : Q) :
  dotOpacity alpha == (3 # 10) + (7 # 10) * clamp alpha 0 1.
Proof. unfold dotOpacity. now rewrite clamp_unit. Qed.

Lemma dotRadius_max (bump : Q) :
  dotRadius P bump
  == Qmax (2 # 10) (baseRadius P + amplitude P * Qmin 1 bump).
Proof.
  unfold dotRadius. rewrite Math_max_Qmax. now rewrite Math_min_Qmin.
Qed.

(** *** Shape of a frame *)

Lemma drawOps_shape (t : Q) (st : State) :
  drawOps Math_exp Math_hypot P t st
  = frameHeader P st
    ++ flat_map (drawDot Math_exp Math_hypot P
                   (activeRipples Math_exp P t (ripples st))) (points st)
    ++ [GlobalAlpha 1].
Proof.
  unfold drawOps, JS.for_of, frameHeader. cbv zeta.
  rewrite fold_append_flat_map.
  destruct (negb (String.eqb (background P) "transparent"));
    simpl; repeat rewrite <- app_assoc; reflexivity.
Qed.

Lemma dotsDrawn_app (l1 l2 : list CanvasOp) :
  dotsDrawn (l1 ++ l2) = (dotsDrawn l1 + dotsDrawn l2)%nat.
Proof. unfold dotsDrawn. now rewrite filter_app, length_app. Qed.

Lemma dotsDrawn_frameHeader (st : State) : dotsDrawn (frameHeader P st) = 0%nat.
Proof.
  unfold frameHeader.
  destruct (negb (String.eqb (background P) "transparent")); reflexivity.
Qed.

Lemma dotsDrawn_dots (active : list Active) (pts : list Point) :
  dotsDrawn (flat_map (drawDot Math_exp Math_hypot P active) pts)
  = List.length pts.
Proof.
  induction pts as [|p pts IH]; simpl; [reflexivity|].
  change (dotsDrawn (flat_map (drawDot Math_exp Math_hypot P active) pts))
    with (List.length (filter isArc
            (flat_map (drawDot Math_exp Math_hypot P active) pts))) in IH.
  unfold dotsDrawn. simpl. now rewrite IH.
Qed.

Lemma dotsDrawn_drawOps (t : Q) (st : State) :
  dotsDrawn (drawOps Math_exp Math_hypot P t st) = List.length (points st).
Proof.
  rewrite drawOps_shape, !dotsDrawn_app, dotsDrawn_frameHeader,
    dotsDrawn_dots.
  change (dotsDrawn [GlobalAlpha 1]) with 0%nat. lia.
Qed.

(** C6: for a live ripple and a grid point whose distance to the ripple
    origin equals the ring radius R = age * rippleSpeed, the Gaussian
    response g equals the ripple's weight w (ring width and fade duration
    not zero, so that both quotients are numbers).  In
    particular a ripple spawned at t = 0 with strength 1, with
    rippleSpeed 240, seen at age 0.5 s, has R = 120 and a point at
    distance 120 gets g = exp(0) * exp(-0.5 / fadeSeconds). *)
Theorem ring_peak_response :
  ~ rippleWidth P == 0 -> ~ fadeSeconds P == 0 ->
  (forall (t : Q) (st : State) (rip : Ripple) (p : Point),
     In rip (ripples st) ->
     (t - rt rip) / 1000 <= fadeSeconds P ->
     Math_hypot (px p - rx rip) (py p - ry rip)
       == (t - rt rip) / 1000 * rippleSpeed P ->
     let a := activeEntry Math_exp P t rip in
     In a (activeRipples Math_exp P t (ripples st)) /\
     aR a = (t - rt rip) / 1000 * rippleSpeed P /\
     gauss Math_exp Math_hypot p a == aw a)
  /\
  (forall (x y : Q) (p : Point),
     rippleSpeed P == 240 -> 1 # 2 <= fadeSeconds P ->
     Math_hypot (px p - x) (py p - y) == 120 ->
     exists a : Active,
       activeRipples Math_exp P 500
         [{| rx := x; ry := y; rt := 0; strength := 1 |}] = [a] /\
       aR a == 120 /\
       gauss Math_exp Math_hypot p a
         == Math_exp 0 * Math_exp (- (1 # 2) / fadeSeconds P)).
Proof.
  intros _ _. split.
  - intros t st rip p Hin Hlive Hd a. split; [|split].
    + apply In_activeRipples. exists rip. repeat split; assumption.
    + reflexivity.
    + apply gauss_on_ring. exact Hd.
  - intros x y p Hspeed Hfade Hd.
    assert (Hage : (500 - 0) / 1000 == 1 # 2) by reflexivity.
    exists (activeEntry Math_exp P 500
              {| rx := x; ry := y; rt := 0; strength := 1 |}).
    split; [|split].
    + rewrite activeRipples_flat_map.
      cbn [flat_map rt app].
      assert (E : JS.gtb ((500 - 0) / 1000) (fadeSeconds P) = false).
      { apply ltb_ge. rewrite Hage. exact Hfade. }
      rewrite E. reflexivity.
    + cbn [activeEntry aR rt]. rewrite Hage, Hspeed. reflexivity.
    + rewrite gauss_on_ring.
      * cbn [activeEntry aw rt strength]. rewrite Math_exp_zero.
        rewrite (Math_exp_proper (- ((500 - 0) / 1000) / fadeSeconds P)
                                 (- (1 # 2) / fadeSeconds P)).
        -- change (JS.or 1 1) with 1. ring.
        -- now rewrite Hage.
      * cbn [activeEntry aR ax ay rt rx ry].
        rewrite Hage, Hspeed, Hd. reflexivity.
Qed.

(** C7: in every frame each grid point is drawn as one arc of radius
    max(0.2, baseRadius + amplitude * min(1, bump)) at opacity
    0.3 + 0.7 * clamp(alpha, 0, 1), bump being the sum and alpha the
    maximum of the responses of the live ripples; the opacity is within
    [0.3, 1] for every alpha, and with no influence it is 0.3. *)
Theorem dot_radius_and_opacity (t : Q) (st : State) :
  let active := activeRipples Math_exp P t (ripples st) in
  drawOps Math_exp Math_hypot P t st
  = frameHeader P st
    ++ flat_map (drawDot Math_exp Math_hypot P active) (points st)
    ++ [GlobalAlpha 1]
  /\ dotsDrawn (frameHeader P st) = 0%nat
  /\ (forall p : Point,
        exists bump alpha : Q,
          drawDot Math_exp Math_hypot P active p
          = [GlobalAlpha (dotOpacity alpha); BeginPath;
             Arc (px p) (py p) (dotRadius P bump); Fill] /\
          bump == sumQ (map (gauss Math_exp Math_hypot p) active) /\
          alpha == maxQ (map (gauss Math_exp Math_hypot p) active))
  /\ (forall bump : Q,
        dotRadius P bump
        == Qmax (2 # 10) (baseRadius P + amplitude P * Qmin 1 bump))
  /\ (forall alpha : Q,
        dotOpacity alpha == (3 # 10) + (7 # 10) * clamp alpha 0 1 /\
        3 # 10 <= dotOpacity alpha <= 1)
  /\ (forall p : Point,
        drawDot Math_exp Math_hypot P [] p
        = [GlobalAlpha (dotOpacity 0); BeginPath;
           Arc (px p) (py p) (dotRadius P 0); Fill] /\
        dotOpacity 0 == 3 # 10).
Proof.
  intros active. repeat apply conj.
  - apply drawOps_shape.
  - apply dotsDrawn_frameHeader.
  - intros p.
    exists (fst (influence Math_exp Math_hypot p active)),
           (snd (influence Math_exp Math_hypot p active)).
    split; [reflexivity|]. apply influence_sum_max.
  - apply dotRadius_max.
  - intros alpha. pose proof (clamp_unit_bounds alpha) as Hb.
    pose proof (dotOpacity_clamp alpha) as Ho.
    split; [exact Ho|]. rewrite Ho. lra.
  - intros p. split; reflexivity.
Qed.


(** *** The animation loop *)

Lemma draw_with_context (t : Q) (w : World) :
  ctx (comp w) = true ->
  frames (draw Math_exp Math_hypot P t w)
    = frames w ++ [drawOps Math_exp Math_hypot P t (comp w)] /\
  frameRequests (draw Math_exp Math_hypot P t w)
    = frameRequests w ++ [nextHandle w] /\
  nextHandle (draw Math_exp Math_hypot P t w) = S (nextHandle w) /\
  ctx (comp (draw Math_exp Math_hypot P t w)) = true /\
  raf (comp (draw Math_exp Math_hypot P t w)) = nextHandle w.
Proof.
  intros H. unfold draw. rewrite H. simpl. rewrite H. repeat split.
Qed.

Lemma animationFrame_single (t : Q) (w : World) (h : nat) :
  ctx (comp w) = true -> frameRequests w = [h] ->
  List.length (frames (animationFrame Math_exp Math_hypot P t w))
    = S (List.length (frames w)) /\
  frameRequests (animationFrame Math_exp Math_hypot P t w) = [nextHandle w] /\
  ctx (comp (animationFrame Math_exp Math_hypot P t w)) = true.
Proof.
  intros Hc Hq. unfold animationFrame. rewrite Hq. cbn [fold_left].
  match goal with
  | |- context [draw _ _ _ _ ?w0] =>
      destruct (draw_with_context t w0 Hc) as (Hf & Hr & _ & Hc' & _)
  end.
  rewrite Hf, Hr, Hc'. cbn [frames frameRequests nextHandle app].
  rewrite length_app. cbn [List.length]. repeat split. lia.
Qed.

Lemma animationFrames_count (ts : list Q) :
  forall (w : World) (h : nat),
    ctx (comp w) = true -> frameRequests w = [h] ->
    List.length (frames (animationFrames Math_exp Math_hypot P ts w))
      = (List.length (frames w) + List.length ts)%nat /\
    exists h' : nat,
      frameRequests (animationFrames Math_exp Math_hypot P ts w) = [h'].
Proof.
  induction ts as [|t ts IH]; intros w h Hc Hq.
  - simpl. split; [lia|]. now exists h.
  - destruct (animationFrame_single t w h Hc Hq) as (Hl & Hr & Hc').
    destruct (IH _ _ Hc' Hr) as (Hl' & h' & Hr').
    unfold animationFrames in *. cbn [fold_left].
    split; [|now exists h'].
    rewrite Hl', Hl. cbn [List.length]. lia.
Qed.

Lemma resize_with_context (host : Host) (w : World) :
  hasContext host = true ->
  exists w0 : World,
    resize P host w = Some w0 /\ ctx (comp w0) = true /\
    frames w0 = frames w /\ frameRequests w0 = frameRequests w /\
    nextHandle w0 = nextHandle w.
Proof.
  intros H. unfold resize. rewrite H. cbn [negb].
  eexists. split; [reflexivity|]. repeat split.
Qed.

(** C1 does not hold of the code: mounted under a reduced-motion
    preference, the component paints its first frame through [draw],
    which requests an animation frame like every other pass.  One request
    is pending after the mount and after every later tick, and each tick
    paints one more frame. *)
Theorem reduced_motion_keeps_animating (host : Host) (t : Q) (ts : list Q) :
  hasContext host = true ->
  exists w1 : World,
    onMount Math_exp Math_hypot P host true t initialWorld = Some w1 /\
    List.length (frames w1) = 1%nat /\
    frameRequests w1 = [1%nat] /\
    List.length (frames (animationFrames Math_exp Math_hypot P ts w1))
      = S (List.length ts) /\
    frameRequests (animationFrames Math_exp Math_hypot P ts w1) <> [].
Proof.
  intros Hctx.
  destruct (resize_with_context host initialWorld Hctx)
    as (w0 & Hres & Hc & Hf0 & Hr0 & Hn0).
  destruct (draw_with_context t w0 Hc) as (Hf & Hr & _ & Hc' & _).
  unfold onMount. rewrite Hres. cbn [negb].
  eexists. split; [reflexivity|].
  assert (Hf1 : List.length (frames (draw Math_exp Math_hypot P t w0)) = 1%nat).
  { rewrite Hf, Hf0. reflexivity. }
  assert (Hr1 : frameRequests (draw Math_exp Math_hypot P t w0) = [1%nat]).
  { rewrite Hr, Hr0, Hn0. reflexivity. }
  cbn [frames frameRequests].
  split; [exact Hf1|]. split; [exact Hr1|].
  match goal with
  | |- context [animationFrames _ _ _ _ ?w1] =>
      destruct (animationFrames_count ts w1 1%nat Hc' Hr1) as (Hl & h' & Hq)
  end.
  rewrite Hl, Hq. cbn [frames]. rewrite Hf1. split; [lia|discriminate].
Qed.

End Rendering.

(** ** The statements above at concrete inputs *)

Lemma exp_series_proper (a b : Q) : a == b -> exp_series a == exp_series b.
Proof. intros H. unfold exp_series. now rewrite H. Qed.

Lemma exp_series_zero : exp_series 0 == 1.
Proof. reflexivity. Qed.

Lemma auto_pulse_rate_limited_witness :
  let st := addRipple defaultProps 1000 1 1 (16 # 10) initialState in
  1050 - lastEmit st < 90 /\
  autoPulse sin_series cos_series defaultProps 1050 1050 1050 st = st.
Proof.
  intros st.
  assert (Ht : 1050 - lastEmit st < 90) by reflexivity.
  split; [exact Ht|].
  exact (proj1 (auto_pulse_rate_limited sin_series cos_series defaultProps
                  st 1050 1050 1050) Ht).
Defined.

Lemma ring_peak_response_witness :
  (~ rippleWidth defaultProps == 0 /\ ~ fadeSeconds defaultProps == 0) /\
  exists a : Active,
    activeRipples exp_series defaultProps 500
      [{| rx := 0; ry := 0; rt := 0; strength := 1 |}] = [a] /\
    aR a == 120 /\
    gauss exp_series hypot_axis {| px := 120; py := 0 |} a
      == exp_series 0 * exp_series (- (1 # 2) / fadeSeconds defaultProps).
Proof.
  assert (Hsigma : ~ rippleWidth defaultProps == 0) by discriminate.
  assert (Hfade : ~ fadeSeconds defaultProps == 0) by discriminate.
  split; [now split|].
  apply (proj2 (ring_peak_response exp_series hypot_axis exp_series_proper
                  exp_series_zero defaultProps Hsigma Hfade)
               0 0 {| px := 120; py := 0 |}).
  - reflexivity.
  - vm_compute. discriminate.
  - reflexivity.
Defined.


Lemma reduced_motion_keeps_animating_witness :
  hasContext host520 = true /\
  exists w1 : World,
    onMount exp_series hypot_axis defaultProps host520 true 1000 initialWorld
    = Some w1 /\
    List.length (frames w1) = 1%nat /\
    frameRequests w1 = [1%nat] /\
    List.length
      (frames (animationFrames exp_series hypot_axis defaultProps
                 [1016; 1033] w1)) = 3%nat /\
    frameRequests (animationFrames exp_series hypot_axis defaultProps
                     [1016; 1033] w1) <> [].
Proof.
  split; [reflexivity|].
  exact (reduced_motion_keeps_animating exp_series hypot_axis defaultProps
           host520 1000 [1016; 1033] eq_refl).
Defined.

(** A container and window of size zero: the mount goes through, the grid
    is empty and the first frame holds no dot. *)
Example zero_size_mount :
  let host := {| clientWidth := 0; clientHeight := 0; innerWidth := 0;
                 innerHeight := 0; devicePixelRatio := 1;
                 hasContext := true |} in
  exists w : World,
    onMount exp_series hypot_axis defaultProps host true 0 initialWorld
    = Some w /\
    points (comp w) = [] /\
    map dotsDrawn (frames w) = [0%nat].
Proof.
  eexists. split; [reflexivity|]. split; reflexivity.
Qed.

(** * Further properties of the component *)

(** ** Ripple store under insertions *)

Lemma addRipple_frame (P : Props) (t x y s : Q) (st : State) :
  ctx (addRipple P t x y s st) = ctx st /\
  dpr (addRipple P t x y s st) = dpr st /\
  width (addRipple P t x y s st) = width st /\
  height (addRipple P t x y s st) = height st /\
  points (addRipple P t x y s st) = points st /\
  raf (addRipple P t x y s st) = raf st /\
  autoTimer (addRipple P t x y s st) = autoTimer st.
Proof.
  unfold addRipple. destruct (rateLimited st t s); repeat split.
Qed.

(** An insertion adds at most the new ripple, and drops no ripple younger
    than 1.2 fade durations at the time of the call. *)
Theorem addRipple_store_content (P : Props) (t x y s : Q) (st : State) :
  (forall r, In r (ripples (addRipple P t x y s st)) ->
             In r (ripples st) \/
             r = {| rx := x; ry := y; rt := t; strength := s |}) /\
  (forall r, In r (ripples st) ->
             t - fadeSeconds P * 1000 * (12 # 10) < rt r ->
             In r (ripples (addRipple P t x y s st))) /\
  (List.length (ripples (addRipple P t x y s st))
   <= S (List.length (ripples st)))%nat.
Proof.
  destruct (rateLimited st t s) eqn:E.
  - rewrite (addRipple_rejected P t x y s st E).
    repeat split; [now left|tauto|lia].
  - destruct (addRipple_accepted P t x y s st E) as [_ ->]. repeat split.
    + intros r Hr. apply filter_In in Hr as [Hr _].
      apply in_app_or in Hr as [Hr|[<-|[]]]; [now left|now right].
    + intros r Hr Hy. apply filter_In. split.
      * apply in_or_app. now left.
      * apply ltb_lt. exact Hy.
    + eapply Nat.le_trans; [apply filter_length_le|].
      rewrite length_app. simpl. lia.
Qed.

Lemma addRipple_store_content_witness :
  let st := set_lastEmit
              (set_ripples initialState
                 [{| rx := 1; ry := 1; rt := 4000; strength := 1 |}]) 4000 in
  In {| rx := 1; ry := 1; rt := 4000; strength := 1 |}
     (ripples (addRipple defaultProps 5000 2 2 1 st)).
Proof.
  intros st.
  apply (proj1 (proj2 (addRipple_store_content defaultProps 5000 2 2 1 st))).
  - now left.
  - reflexivity.
Defined.

Lemma filter_cutoffs (c1 c2 : Q) (l : list Ripple) :
  c1 <= c2 ->
  filter (fun r => JS.gtb (rt r) c2) (filter (fun r => JS.gtb (rt r) c1) l)
  = filter (fun r => JS.gtb (rt r) c2) l /\
  filter (fun r => JS.gtb (rt r) c1) (filter (fun r => JS.gtb (rt r) c2) l)
  = filter (fun r => JS.gtb (rt r) c2) l.
Proof.
  intros Hc. induction l as [|r l [IH1 IH2]]; [now split|]. cbn [filter].
  destruct (JS.gtb (rt r) c1) eqn:G1; destruct (JS.gtb (rt r) c2) eqn:G2;
    cbn [filter]; rewrite ?G1, ?G2, ?IH1, ?IH2; try (now split).
  apply ltb_lt in G2. apply ltb_ge in G1. lra.
Qed.

(** Pruning twice is pruning once with the larger cutoff; in particular
    pruning is idempotent. *)
Theorem riplesCleanup_compose (c1 c2 : Q) (st : State) :
  c1 <= c2 ->
  riplesCleanup c2 (riplesCleanup c1 st) = riplesCleanup c2 st /\
  riplesCleanup c1 (riplesCleanup c2 st) = riplesCleanup c2 st.
Proof.
  intros Hc. destruct (filter_cutoffs c1 c2 (ripples st) Hc) as [E1 E2].
  unfold riplesCleanup, set_ripples.
  cbn [ripples ctx dpr width height points raf autoTimer lastEmit].
  rewrite E1, E2. split; reflexivity.
Qed.

Lemma riplesCleanup_compose_witness :
  let st := set_ripples initialState
              [{| rx := 1; ry := 1; rt := 100; strength := 1 |};
               {| rx := 2; ry := 2; rt := 300; strength := 1 |}] in
  100 <= 200 /\
  riplesCleanup 200 (riplesCleanup 100 st) = riplesCleanup 200 st.
Proof.
  intros st.
  assert (Hc : 100 <= 200) by (vm_compute; discriminate).
  split; [exact Hc|].
  exact (proj1 (riplesCleanup_compose 100 200 st Hc)).
Defined.

(** A click also opens the 90 ms quiet period: a pointer move or an auto
    pulse less than 90 ms after any click changes nothing. *)
Theorem click_silences_following_moves
    (P : Props) (t1 t2 cx1 cy1 cx2 cy2 l1 tp1 l2 tp2 : Q) (st : State) :
  t2 - t1 < 90 ->
  onPointer P t2 cx2 cy2 l2 tp2 (onClick P t1 cx1 cy1 l1 tp1 st)
  = onClick P t1 cx1 cy1 l1 tp1 st.
Proof.
  intros Ht. unfold onPointer.
  apply addRipple_rejected, rateLimited_true. split; [|reflexivity].
  unfold onClick.
  assert (Hacc : rateLimited st t1 (16 # 10) = false).
  { apply rateLimited_false. right. vm_compute. discriminate. }
  destruct (addRipple_accepted P t1 (cx1 - l1) (cy1 - tp1) (16 # 10) st Hacc)
    as [-> _].
  exact Ht.
Qed.

Lemma click_silences_following_moves_witness :
  1040 - 1000 < 90 /\
  onPointer defaultProps 1040 11 11 0 0
    (onClick defaultProps 1000 10 10 0 0 initialState)
  = onClick defaultProps 1000 10 10 0 0 initialState.
Proof.
  assert (Ht : 1040 - 1000 < 90) by reflexivity.
  split; [exact Ht|].
  exact (click_silences_following_moves defaultProps 1000 1040 10 10 11 11
           0 0 0 0 initialState Ht).
Defined.

(** ** The limiter as a bound on the store *)

Lemma StronglySorted_snoc {A : Type} (R : A -> A -> Prop) (l : list A) (x : A) :
  StronglySorted R l -> Forall (fun a => R a x) l ->
  StronglySorted R (l ++ [x]).
Proof.
  induction 1 as [|a l Hs IH Ha]; intros Hx; simpl.
  - constructor; constructor.
  - inversion Hx as [|? ? Hax Hlx]; subst. constructor.
    + apply IH, Hlx.
    + apply Forall_app. split; [exact Ha|]. constructor; [exact Hax|constructor].
Qed.

Lemma StronglySorted_filter {A : Type} (R : A -> A -> Prop) (f : A -> bool)
    (l : list A) :
  StronglySorted R l -> StronglySorted R (filter f l).
Proof.
  induction 1 as [|a l Hs IH Ha]; simpl; [constructor|].
  destruct (f a); [|exact IH]. constructor; [exact IH|].
  rewrite Forall_forall in *. intros b Hb. apply Ha.
  apply filter_In in Hb. tauto.
Qed.

Lemma inject_Z_length_cons {A : Type} (a : A) (l : list A) :
  inject_Z (Z.of_nat (List.length (a :: l)))
  = inject_Z (Z.of_nat (List.length l)) + 1.
Proof.
  cbn [List.length]. rewrite Nat2Z.inj_succ. unfold Z.succ.
  now rewrite inject_Z_plus.
Qed.

(** In a spaced store the last ripple is at least 90 (n - 1) ms after the
    first. *)
Lemma spaced90_span (l : list Ripple) :
  spaced90 l ->
  forall a, hd_error l = Some a ->
  exists b, In b l /\
    rt a + 90 * (inject_Z (Z.of_nat (List.length l)) - 1) <= rt b.
Proof.
  induction 1 as [|a l Hs IH Ha]; intros a0 Hhd; [discriminate|].
  injection Hhd as <-. destruct l as [|a' l'].
  - exists a. split; [now left|].
    change (inject_Z (Z.of_nat (List.length [a]))) with 1. lra.
  - destruct (IH a' eq_refl) as (b & Hb & Hspan).
    exists b. split; [now right|].
    inversion Ha as [|? ? Haa' _]; subst.
    rewrite (inject_Z_length_cons a (a' :: l')).
    set (n := inject_Z (Z.of_nat (List.length (a' :: l')))) in *. lra.
Qed.

Lemma storeInv_size (P : Props) (st : State) :
  storeInv P st -> ripples st <> [] ->
  90 * (inject_Z (Z.of_nat (List.length (ripples st))) - 1)
  < fadeSeconds P * 1000 * (12 # 10).
Proof.
  intros [Hsp Hall] Hne.
  destruct (ripples st) as [|a l] eqn:E; [congruence|].
  destruct (spaced90_span _ Hsp a eq_refl) as (b & Hb & Hspan).
  rewrite Forall_forall in Hall.
  destruct (Hall a (or_introl eq_refl)) as [_ Ha].
  destruct (Hall b Hb) as [Hbl _].
  set (n := inject_Z (Z.of_nat (List.length (a :: l)))) in *. lra.
Qed.

Lemma addRipple_storeInv (P : Props) (t x y s : Q) (st : State) :
  s < 11 # 10 -> storeInv P st -> storeInv P (addRipple P t x y s st).
Proof.
  intros Hs [Hsp Hall].
  destruct (rateLimited st t s) eqn:E.
  - rewrite (addRipple_rejected P t x y s st E). now split.
  - destruct (addRipple_accepted P t x y s st E) as [Hl Hr].
    apply rateLimited_false in E.
    assert (Ht : 90 <= t - lastEmit st) by (destruct E; [assumption|lra]).
    rewrite Forall_forall in Hall.
    unfold storeInv. rewrite Hl, Hr. split.
    + apply StronglySorted_filter, StronglySorted_snoc; [exact Hsp|].
      apply Forall_forall. intros a Ha. cbn [rt].
      destruct (Hall a Ha) as [Hle _]. lra.
    + apply Forall_forall. intros r Hin.
      apply filter_In in Hin as [Hin Hy]. apply ltb_lt in Hy.
      split; [|exact Hy].
      apply in_app_or in Hin as [Hin|[<-|[]]].
      * destruct (Hall r Hin) as [Hle _]. lra.
      * cbn [rt]. lra.
Qed.

(** Insertions below strength 1.1 (pointer moves, auto pulses) keep the
    store spaced: stored ripples stay in spawn order, at least 90 ms apart,
    none later than [lastEmit] and none older than the pruning window. *)
Theorem limited_insertions_keep_spacing
    (P : Props) (t x y s : Q) (st : State) :
  s < 11 # 10 -> storeInv P st -> storeInv P (addRipple P t x y s st).
Proof. apply addRipple_storeInv. Qed.

Lemma limited_insertions_keep_spacing_witness :
  1 < 11 # 10 /\ storeInv defaultProps initialState /\
  storeInv defaultProps (addRipple defaultProps 1000 3 3 1 initialState).
Proof.
  assert (Hs : 1 < 11 # 10) by reflexivity.
  assert (H0 : storeInv defaultProps initialState).
  { split; constructor. }
  split; [exact Hs|]. split; [exact H0|].
  exact (limited_insertions_keep_spacing defaultProps 1000 3 3 1
           initialState Hs H0).
Defined.

Lemma addRipples_storeInv (P : Props) (ins : list (Q * Q * Q * Q)) :
  Forall (fun i => snd i < 11 # 10) ins ->
  forall st, storeInv P st -> storeInv P (addRipples P ins st).
Proof.
  unfold addRipples.
  induction 1 as [|i ins Hi _ IH]; intros st Hst; [exact Hst|].
  cbn [fold_left]. apply IH. now apply addRipple_storeInv.
Qed.

(** Whatever the times and positions of a series of pointer moves and auto
    pulses, the store they build from an empty component holds n ripples
    with 90 (n - 1) < 1200 fadeSeconds; with the default 2.2 s that is at
    most 30 ripples. *)
Theorem limited_insertions_bound_store
    (P : Props) (ins : list (Q * Q * Q * Q)) :
  Forall (fun i => snd i < 11 # 10) ins ->
  let st := addRipples P ins initialState in
  (ripples st = [] \/
   90 * (inject_Z (Z.of_nat (List.length (ripples st))) - 1)
   < fadeSeconds P * 1000 * (12 # 10)) /\
  (fadeSeconds P == 22 # 10 -> (List.length (ripples st) <= 30)%nat).
Proof.
  intros Hins st.
  assert (Hinv : storeInv P st).
  { apply addRipples_storeInv; [exact Hins|]. split; constructor. }
  assert (Hb : ripples st = [] \/
               90 * (inject_Z (Z.of_nat (List.length (ripples st))) - 1)
               < fadeSeconds P * 1000 * (12 # 10)).
  { destruct (ripples st) eqn:E; [now left|right].
    rewrite <- E. apply storeInv_size; [exact Hinv|]. rewrite E. discriminate. }
  split; [exact Hb|].
  intros Hf. destruct Hb as [->|Hb]; [simpl; lia|].
  destruct (le_lt_dec (List.length (ripples st)) 30) as [Hle|Hgt];
    [exact Hle|exfalso].
  assert (Hz : (31 <= Z.of_nat (List.length (ripples st)))%Z) by lia.
  rewrite Zle_Qle in Hz. rewrite Hf in Hb.
  set (n := inject_Z (Z.of_nat (List.length (ripples st)))) in *.
  change (inject_Z 31) with 31 in Hz. lra.
Qed.

Lemma limited_insertions_bound_store_witness :
  let ins := [(1000, 1, 1, 1); (1040, 2, 2, 1); (1100, 3, 3, 9 # 10)] in
  Forall (fun i => snd i < 11 # 10) ins /\
  (List.length (ripples (addRipples defaultProps ins initialState)) <= 30)%nat.
Proof.
  intros ins.
  assert (Hins : Forall (fun i => snd i < 11 # 10) ins).
  { repeat constructor. }
  split; [exact Hins|].
  apply (proj2 (limited_insertions_bound_store defaultProps ins Hins)).
  reflexivity.
Defined.

(** ** What a frame shows *)

Lemma fold_Qmax_bounds (l : list Q) :
  forall a : Q,
    a <= fold_left Qmax l a /\ (forall g, In g l -> g <= fold_left Qmax l a).
Proof.
  induction l as [|g l IH]; intros a; cbn [fold_left].
  - split; [lra|intros g []].
  - destruct (IH (Qmax a g)) as [H1 H2]. split.
    + eapply Qle_trans; [apply Q.le_max_l|exact H1].
    + intros g' [<-|Hg'].
      * eapply Qle_trans; [apply Q.le_max_r|exact H1].
      * now apply H2.
Qed.

Lemma clamp_unit_mono (a b : Q) : a <= b -> clamp a 0 1 <= clamp b 0 1.
Proof.
  intros H. unfold clamp.
  destruct (Qlt_le_dec a 0), (Qlt_le_dec b 0); try lra;
    destruct (Qlt_le_dec 1 a); destruct (Qlt_le_dec 1 b); lra.
Qed.

Section Frames.

Variable Math_exp : Q -> Q.
Variable Math_hypot : Q -> Q -> Q.
Variable P : Props.

Lemma activeRipples_pruned (t cutoff : Q) (rs : list Ripple) :
  (forall r, In r rs -> rt r <= cutoff ->
             fadeSeconds P < (t - rt r) / 1000) ->
  activeRipples Math_exp P t (filter (fun r => JS.gtb (rt r) cutoff) rs)
  = activeRipples Math_exp P t rs.
Proof.
  intros H. rewrite !activeRipples_flat_map.
  induction rs as [|r rs IH]; [reflexivity|]. cbn [filter flat_map].
  assert (IH' := IH (fun r' Hr' => H r' (or_intror Hr'))).
  destruct (JS.gtb (rt r) cutoff) eqn:G.
  - cbn [flat_map]. now rewrite IH'.
  - apply ltb_ge in G. pose proof (H r (or_introl eq_refl) G) as Hold.
    apply ltb_lt in Hold. unfold JS.gtb in *. rewrite Hold. exact IH'.
Qed.

(** Pruning never changes a later frame: with a positive fade duration, a
    draw pass at or after the time of the insertion that pruned paints the
    same calls whether or not the pruning took place. *)
Theorem pruning_is_invisible (t0 t : Q) (st : State) :
  0 < fadeSeconds P -> t0 <= t ->
  drawOps Math_exp Math_hypot P t
    (riplesCleanup (t0 - fadeSeconds P * 1000 * (12 # 10)) st)
  = drawOps Math_exp Math_hypot P t st.
Proof.
  intros Hf Ht. unfold drawOps, riplesCleanup, set_ripples.
  cbn [ripples width height points].
  rewrite activeRipples_pruned; [reflexivity|].
  intros r _ Hr. unfold Qdiv. change (/ 1000) with (1 # 1000). lra.
Qed.

(** Once every stored ripple is older than the fade duration the frame is
    the idle frame, the one painted with an empty store. *)
Theorem expired_ripples_leave_idle_frame (t : Q) (st : State) :
  (forall r, In r (ripples st) -> fadeSeconds P < (t - rt r) / 1000) ->
  activeRipples Math_exp P t (ripples st) = [] /\
  drawOps Math_exp Math_hypot P t st
  = drawOps Math_exp Math_hypot P t (set_ripples st []).
Proof.
  intros H.
  assert (E : activeRipples Math_exp P t (ripples st) = []).
  { rewrite activeRipples_flat_map.
    induction (ripples st) as [|r rs IH]; [reflexivity|]. cbn [flat_map].
    pose proof (H r (or_introl eq_refl)) as Hr. apply ltb_lt in Hr.
    unfold JS.gtb. rewrite Hr. cbn [app].
    apply IH. intros r' Hr'. apply H. now right. }
  split; [exact E|].
  unfold drawOps. cbn [set_ripples ripples width height points].
  now rewrite E.
Qed.

(** Every frame opens by clearing the surface, paints exactly one dot per
    grid point whatever the ripples are, and closes by resetting the
    opacity to 1. *)
Theorem frame_structure (t : Q) (st : State) :
  let ops := drawOps Math_exp Math_hypot P t st in
  hd_error ops = Some (ClearRect 0 0 (width st) (height st)) /\
  dotsDrawn ops = List.length (points st) /\
  last ops Fill = GlobalAlpha 1.
Proof.
  intros ops. unfold ops. split; [|split].
  - rewrite drawOps_shape. reflexivity.
  - apply dotsDrawn_drawOps.
  - rewrite drawOps_shape, !app_assoc. apply last_last.
Qed.

(** The dot radius never goes below 0.2; for a non-negative amplitude it
    grows with the accumulated bump and never exceeds
    max(0.2, baseRadius + amplitude); the opacity grows with alpha. *)
Theorem dot_size_bounds :
  (forall bump : Q, 2 # 10 <= dotRadius P bump) /\
  (0 <= amplitude P ->
   forall b1 b2 : Q,
     b1 <= b2 ->
     dotRadius P b1 <= dotRadius P b2 /\
     dotRadius P b2 <= Qmax (2 # 10) (baseRadius P + amplitude P)) /\
  (forall a1 a2 : Q, a1 <= a2 -> dotOpacity a1 <= dotOpacity a2).
Proof.
  split; [|split].
  - intros bump. rewrite dotRadius_max. apply Q.le_max_l.
  - intros Ha b1 b2 Hb. rewrite !dotRadius_max. split.
    + apply Q.max_le_compat_l.
      assert (Hm : Qmin 1 b1 <= Qmin 1 b2) by now apply Q.min_le_compat_l.
      assert (Hp : Qmin 1 b1 * amplitude P <= Qmin 1 b2 * amplitude P)
        by now apply Qmult_le_compat_r.
      rewrite !(Qmult_comm (amplitude P)). lra.
    + apply Q.max_le_compat_l.
      assert (Hm : Qmin 1 b2 <= 1) by apply Q.le_min_l.
      assert (Hp : Qmin 1 b2 * amplitude P <= 1 * amplitude P)
        by now apply Qmult_le_compat_r.
      rewrite !(Qmult_comm (amplitude P)). lra.
  - intros a1 a2 Ha. rewrite !dotOpacity_clamp.
    pose proof (clamp_unit_mono a1 a2 Ha). lra.
Qed.

(** The brightness accumulator is never negative and dominates the response
    of every live ripple, so the lower clamp of the opacity never acts:
    the opacity is 0.3 + 0.7 min(1, alpha). *)
Theorem alpha_dominates_responses (p : Point) (active : list Active) :
  let alpha := snd (influence Math_exp Math_hypot p active) in
  0 <= alpha /\
  (forall r, In r active -> gauss Math_exp Math_hypot p r <= alpha) /\
  dotOpacity alpha == (3 # 10) + (7 # 10) * Qmin 1 alpha.
Proof.
  intros alpha.
  destruct (influence_sum_max Math_exp Math_hypot p active) as [_ Hmax].
  fold alpha in Hmax. unfold maxQ in Hmax.
  destruct (fold_Qmax_bounds (map (gauss Math_exp Math_hypot p) active) 0)
    as [H0 Hall].
  assert (Hpos : 0 <= alpha) by (rewrite Hmax; exact H0).
  split; [exact Hpos|]. split.
  - intros r Hr. rewrite Hmax. apply Hall. now apply in_map.
  - unfold dotOpacity. rewrite Math_max_Qmax, Math_min_Qmin.
    rewrite Q.max_r; [reflexivity|].
    apply Q.min_glb; [lra|exact Hpos].
Qed.

(** A draw pass touches nothing of the component but [raf], adds at most
    one frame and leaves the timers alone; without a context it does
    nothing at all. *)
Theorem draw_touches_only_raf (t : Q) (w : World) :
  let w' := draw Math_exp Math_hypot P t w in
  set_raf (comp w') (raf (comp w)) = set_raf (comp w) (raf (comp w)) /\
  intervals w' = intervals w /\
  (List.length (frames w') <= S (List.length (frames w)))%nat /\
  (ctx (comp w) = false -> w' = w).
Proof.
  intros w'. unfold w', draw.
  destruct (ctx (comp w)) eqn:E; cbn [negb].
  - cbn. rewrite length_app. cbn. repeat split; [lia|discriminate].
  - repeat split. lia.
Qed.

End Frames.

Lemma dot_size_bounds_witness :
  0 <= amplitude defaultProps /\
  dotRadius defaultProps (1 # 4) <= dotRadius defaultProps (3 # 4) /\
  dotRadius defaultProps (3 # 4)
  <= Qmax (2 # 10) (baseRadius defaultProps + amplitude defaultProps).
Proof.
  assert (Ha : 0 <= amplitude defaultProps) by (vm_compute; discriminate).
  assert (Hb : 1 # 4 <= 3 # 4) by (vm_compute; discriminate).
  split; [exact Ha|].
  exact (proj1 (proj2 (dot_size_bounds defaultProps)) Ha (1 # 4) (3 # 4) Hb).
Defined.

Lemma pruning_is_invisible_witness :
  let st := set_ripples (surface 52 52)
              [{| rx := 1; ry := 1; rt := 0; strength := 1 |};
               {| rx := 2; ry := 2; rt := 4000; strength := 1 |}] in
  (0 < fadeSeconds defaultProps /\ 5000 <= 5016) /\
  drawOps exp_series hypot_axis defaultProps 5016
    (riplesCleanup (5000 - fadeSeconds defaultProps * 1000 * (12 # 10)) st)
  = drawOps exp_series hypot_axis defaultProps 5016 st.
Proof.
  intros st.
  assert (Hf : 0 < fadeSeconds defaultProps) by reflexivity.
  assert (Ht : 5000 <= 5016) by (vm_compute; discriminate).
  split; [now split|].
  exact (pruning_is_invisible exp_series hypot_axis defaultProps 5000 5016
           st Hf Ht).
Defined.

Lemma expired_ripples_leave_idle_frame_witness :
  let st := set_ripples (surface 52 52)
              [{| rx := 1; ry := 1; rt := 0; strength := 1 |}] in
  activeRipples exp_series defaultProps 3000 (ripples st) = [].
Proof.
  intros st.
  assert (Hold : forall r, In r (ripples st) ->
                   fadeSeconds defaultProps < (3000 - rt r) / 1000).
  { intros r [<-|[]]. reflexivity. }
  exact (proj1 (expired_ripples_leave_idle_frame exp_series hypot_axis
                  defaultProps 3000 st Hold)).
Defined.

(** ** Resize *)

Lemma Math_clamp_1_2 (x : Q) :
  1 <= JS.Math_max 1 (JS.Math_min 2 x) /\ JS.Math_max 1 (JS.Math_min 2 x) <= 2.
Proof.
  rewrite Math_max_Qmax, Math_min_Qmin. split.
  - apply Q.le_max_l.
  - apply Q.max_lub; [lra|apply Q.le_min_l].
Qed.

Lemma resize_effect (P : Props) (host : Host) (w w' : World) :
  resize P host w = Some w' ->
  (ripples (comp w') = ripples (comp w) /\
   lastEmit (comp w') = lastEmit (comp w) /\
   raf (comp w') = raf (comp w) /\
   autoTimer (comp w') = autoTimer (comp w)) /\
  (frames w' = frames w /\ frameRequests w' = frameRequests w /\
   intervals w' = intervals w /\ nextHandle w' = nextHandle w) /\
  points (comp w')
  = gridPoints (width (comp w')) (height (comp w')) (spacing P) /\
  resize P host w' = Some w'.
Proof.
  unfold resize. destruct (hasContext host); cbn [negb]; [|discriminate].
  intros E. injection E as <-. repeat split.
Qed.

(** A resize rebuilds the geometry and nothing else: ripples, limiter
    state, scheduler handles, painted frames and pending requests are
    kept, the points are those of the new size, and resizing again with
    the same measurements changes nothing. *)
Theorem resize_rebuilds_only_geometry (P : Props) (host : Host) (w w' : World) :
  resize P host w = Some w' ->
  (ripples (comp w') = ripples (comp w) /\
   lastEmit (comp w') = lastEmit (comp w) /\
   raf (comp w') = raf (comp w) /\
   autoTimer (comp w') = autoTimer (comp w)) /\
  (frames w' = frames w /\ frameRequests w' = frameRequests w /\
   intervals w' = intervals w /\ nextHandle w' = nextHandle w) /\
  points (comp w')
  = gridPoints (width (comp w')) (height (comp w')) (spacing P) /\
  resize P host w' = Some w'.
Proof. apply resize_effect. Qed.

Lemma resize_rebuilds_only_geometry_witness :
  exists w' : World,
    resize defaultProps host520 initialWorld = Some w' /\
    resize defaultProps host520 w' = Some w'.
Proof.
  eexists. split; [reflexivity|].
  exact (proj2 (proj2 (proj2
    (resize_rebuilds_only_geometry defaultProps host520 initialWorld _
       eq_refl)))).
Defined.

(** After a resize the pixel ratio lies in [1, 2]; the logical size is the
    container's unless that is 0, in which case it is the window's; and for
    a non-negative size the backing buffer measures between floor(size)
    and floor(2 size) pixels. *)
Theorem resize_scaling_bounds (P : Props) (host : Host) (w w' : World) :
  resize P host w = Some w' ->
  (1 <= dpr (comp w') /\ dpr (comp w') <= 2) /\
  (~ clientWidth host == 0 -> width (comp w') = clientWidth host) /\
  (clientWidth host == 0 -> width (comp w') = innerWidth host) /\
  (0 <= width (comp w') ->
   (Qfloor (width (comp w')) <= canvasWidth w'
    <= Qfloor (2 * width (comp w')))%Z) /\
  (0 <= height (comp w') ->
   (Qfloor (height (comp w')) <= canvasHeight w'
    <= Qfloor (2 * height (comp w')))%Z).
Proof.
  unfold resize. destruct (hasContext host); cbn [negb]; [|discriminate].
  intros E. injection E as <-.
  cbn [comp buildGrid set_points dpr width height canvasWidth canvasHeight].
  pose proof (Math_clamp_1_2 (JS.or (devicePixelRatio host) 1)) as [Hlo Hhi].
  set (d := JS.Math_max 1 (JS.Math_min 2 (JS.or (devicePixelRatio host) 1)))
    in *.
  assert (Hfl : forall x : Q, 0 <= x ->
            (Qfloor x <= JS.Math_floor (x * d) <= Qfloor (2 * x))%Z).
  { intros x Hx. unfold JS.Math_floor.
    assert (H1 : x * 1 <= x * d).
    { rewrite !(Qmult_comm x). now apply Qmult_le_compat_r. }
    assert (H2 : x * d <= x * 2).
    { rewrite !(Qmult_comm x). now apply Qmult_le_compat_r. }
    split; apply Qfloor_resp_le; lra. }
  repeat split; try (apply Hfl; assumption); try exact Hlo; try exact Hhi.
  - intros Hnz. unfold JS.or, JS.truthy.
    destruct (Qeq_bool (clientWidth host) 0) eqn:B; [|reflexivity].
    apply Qeq_bool_eq in B. contradiction.
  - intros Hz. unfold JS.or, JS.truthy.
    now rewrite (Qeq_eq_bool _ _ Hz).
Qed.

Lemma resize_scaling_bounds_witness :
  exists w' : World,
    resize defaultProps host520 initialWorld = Some w' /\
    1 <= dpr (comp w') /\ dpr (comp w') <= 2.
Proof.
  eexists. split; [reflexivity|].
  exact (proj1 (resize_scaling_bounds defaultProps host520 initialWorld _
                  eq_refl)).
Defined.

(** ** Timers, mounting and teardown *)

Lemma animationFrame_idle (Math_exp : Q -> Q) (Math_hypot : Q -> Q -> Q)
    (P : Props) (t : Q) (w : World) :
  frameRequests w = [] -> animationFrame Math_exp Math_hypot P t w = w.
Proof.
  intros H. destruct w. cbn in H. subst. reflexivity.
Qed.

Section Lifecycle.

Variable Math_exp : Q -> Q.
Variable Math_hypot : Q -> Q -> Q.
Variable Math_sin : Q -> Q.
Variable Math_cos : Q -> Q.
Variable P : Props.

Lemma startAuto_timer_spec (w : World) :
  nextHandle w <> 0%nat ->
  intervals w = [] \/
  (intervals w = [autoTimer (comp w)] /\ autoTimer (comp w) <> 0%nat) ->
  let w' := startAuto P w in
  (if auto P
   then intervals w' = [nextHandle w] /\ autoTimer (comp w') = nextHandle w
   else intervals w' = [] /\ autoTimer (comp w') = 0%nat) /\
  intervals (stopAuto w') = [] /\ autoTimer (comp (stopAuto w')) = 0%nat.
Proof.
  intros Hn Hinv w'.
  assert (Hstop : intervals (stopAuto w) = [] /\
                  nextHandle (stopAuto w) = nextHandle w /\
                  autoTimer (comp (stopAuto w)) = 0%nat).
  { unfold stopAuto. destruct Hinv as [E|[E Hnz]].
    - destruct (negb (Nat.eqb (autoTimer (comp w)) 0)); cbn; now rewrite E.
    - apply Nat.eqb_neq in Hnz. rewrite Hnz. cbn. rewrite E. cbn.
      now rewrite Nat.eqb_refl. }
  destruct Hstop as (Hs1 & Hs2 & Hs3).
  unfold w', startAuto. set (ws := stopAuto w) in *. clearbody ws.
  apply Nat.eqb_neq in Hn.
  destruct (auto P); cbn [negb].
  - unfold setInterval, stopAuto. cbn. rewrite Hs1, Hs2, Hn. cbn.
    rewrite Nat.eqb_refl. repeat split.
  - unfold stopAuto. rewrite Hs3. cbn. rewrite Hs1. repeat split; assumption.
Qed.

(** [startAuto] never leaves two timers running: whatever timer was set is
    cleared first, and afterwards exactly one runs when [auto] is on and
    none when it is off; [stopAuto] then leaves none. *)
Theorem startAuto_single_timer (w : World) :
  nextHandle w <> 0%nat ->
  intervals w = [] \/
  (intervals w = [autoTimer (comp w)] /\ autoTimer (comp w) <> 0%nat) ->
  let w' := startAuto P w in
  (if auto P
   then intervals w' = [nextHandle w] /\ autoTimer (comp w') = nextHandle w
   else intervals w' = [] /\ autoTimer (comp w') = 0%nat) /\
  intervals (stopAuto w') = [] /\ autoTimer (comp (stopAuto w')) = 0%nat.
Proof. apply startAuto_timer_spec. Qed.

Lemma mount_context_none (host : Host) (reduce : bool) (t : Q) (w : World) :
  hasContext host = false ->
  onMount Math_exp Math_hypot P host reduce t w = None.
Proof.
  intros H. unfold onMount, resize. now rewrite H.
Qed.

Lemma onMount_initial (host : Host) (reduce : bool) (t : Q) :
  hasContext host = true ->
  exists w1 : World,
    onMount Math_exp Math_hypot P host reduce t initialWorld = Some w1 /\
    ctx (comp w1) = true /\
    frameRequests w1 = [1%nat] /\ raf (comp w1) = 1%nat /\
    List.length (frames w1) = (if reduce then 1%nat else 0%nat) /\
    (if negb reduce && auto P
     then intervals w1 = [2%nat] /\ autoTimer (comp w1) = 2%nat
     else intervals w1 = [] /\ autoTimer (comp w1) = 0%nat) /\
    observing w1 = true /\ listening w1 = true /\
    ripples (comp w1) = [].
Proof.
  intros Hctx. unfold onMount, resize. rewrite Hctx. cbn [negb].
  destruct reduce; cbn [negb andb].
  - unfold draw. cbn [comp buildGrid set_points ctx negb].
    eexists. split; [reflexivity|]. cbn. repeat split.
  - unfold startAuto, stopAuto, requestAnimationFrame. destruct (auto P);
      cbn [negb]; (eexists; split; [reflexivity|]); cbn; repeat split.
Qed.


(** *** One pending frame, one timer *)

Lemma draw_schedulerInv (t : Q) (w : World) :
  frameRequests w = [] ->
  intervals w = [] \/
  (intervals w = [autoTimer (comp w)] /\ autoTimer (comp w) <> 0%nat) ->
  schedulerInv (draw Math_exp Math_hypot P t w).
Proof.
  intros Hq Hi. unfold draw, schedulerInv.
  destruct (ctx (comp w)); cbn [negb].
  - cbn. rewrite Hq. split; [now right|exact Hi].
  - split; [now left|exact Hi].
Qed.

Lemma animationFrame_schedulerInv (t : Q) (w : World) :
  schedulerInv w -> schedulerInv (animationFrame Math_exp Math_hypot P t w).
Proof.
  intros [[Hq|Hq] Hi].
  - rewrite animationFrame_idle by exact Hq. split; [now left|exact Hi].
  - unfold animationFrame. rewrite Hq. cbn [fold_left].
    apply draw_schedulerInv; [reflexivity|exact Hi].
Qed.

Lemma set_comp_addRipple_schedulerInv (t x y s : Q) (w : World) :
  schedulerInv w -> schedulerInv (set_comp w (addRipple P t x y s (comp w))).
Proof.
  unfold schedulerInv. cbn [set_comp frameRequests intervals comp].
  destruct (addRipple_frame P t x y s (comp w))
    as (_ & _ & _ & _ & _ & -> & ->).
  tauto.
Qed.

Lemma dispatch_schedulerInv (e : Event) (w w' : World) :
  schedulerInv w ->
  dispatch Math_exp Math_hypot Math_sin Math_cos P e w = Some w' ->
  schedulerInv w'.
Proof.
  intros Hinv. destruct e; cbn [dispatch].
  - intros E. injection E as <-. now apply animationFrame_schedulerInv.
  - intros E. injection E as <-.
    destruct (existsb (Nat.eqb h) (intervals w)); [|exact Hinv].
    unfold autoPulse. now apply set_comp_addRipple_schedulerInv.
  - intros E. injection E as <-. destruct (listening w); [|exact Hinv].
    unfold onPointer. now apply set_comp_addRipple_schedulerInv.
  - intros E. injection E as <-. destruct (listening w); [|exact Hinv].
    unfold onClick. now apply set_comp_addRipple_schedulerInv.
  - destruct (observing w).
    + intros E.
      destruct (resize_effect P host w w' E)
        as ((_ & _ & Hr & Ha) & (_ & Hq & Hi & _) & _).
      unfold schedulerInv. rewrite Hr, Ha, Hq, Hi. exact Hinv.
    + intros E. injection E as <-. exact Hinv.
Qed.

Lemma run_schedulerInv (es : list Event) :
  forall w w' : World,
    schedulerInv w ->
    run Math_exp Math_hypot Math_sin Math_cos P es w = Some w' ->
    schedulerInv w'.
Proof.
  induction es as [|e es IH]; intros w w' Hinv; cbn [run].
  - intros E. injection E as <-. exact Hinv.
  - destruct (dispatch Math_exp Math_hypot Math_sin Math_cos P e w)
      as [w1|] eqn:D; [|discriminate].
    apply IH. exact (dispatch_schedulerInv e w w1 Hinv D).
Qed.

Lemma onMount_schedulerInv (host : Host) (reduce : bool) (t : Q) (w1 : World) :
  onMount Math_exp Math_hypot P host reduce t initialWorld = Some w1 ->
  schedulerInv w1.
Proof.
  intros Hm.
  destruct (hasContext host) eqn:Hctx.
  - destruct (onMount_initial host reduce t Hctx)
      as (w & Hw & _ & Hq & Hr & _ & Hi & _).
    rewrite Hw in Hm. injection Hm as <-.
    split; [right; now rewrite Hq, Hr|].
    destruct (negb reduce && auto P); destruct Hi as [Hi Ha].
    + right. rewrite Hi, Ha. split; [reflexivity|discriminate].
    + now left.
  - rewrite (mount_context_none host reduce t initialWorld Hctx) in Hm.
    discriminate.
Qed.

(** At any moment after a mount, whatever events were delivered, at most
    one animation-frame request is pending, it is the one [raf] holds, and
    at most one interval timer runs, the one [autoTimer] holds. *)
Theorem one_frame_request_one_timer
    (host : Host) (reduce : bool) (t : Q) (es : list Event) (w1 w2 : World) :
  onMount Math_exp Math_hypot P host reduce t initialWorld = Some w1 ->
  run Math_exp Math_hypot Math_sin Math_cos P es w1 = Some w2 ->
  (frameRequests w2 = [] \/ frameRequests w2 = [raf (comp w2)]) /\
  (intervals w2 = [] \/
   (intervals w2 = [autoTimer (comp w2)] /\ autoTimer (comp w2) <> 0%nat)).
Proof.
  intros Hm Hr.
  exact (run_schedulerInv es w1 w2 (onMount_schedulerInv host reduce t w1 Hm)
           Hr).
Qed.

Lemma cleanup_clears (w : World) :
  schedulerInv w ->
  frameRequests (onMountCleanup w) = [] /\
  intervals (onMountCleanup w) = [] /\
  observing (onMountCleanup w) = false /\
  listening (onMountCleanup w) = false /\
  autoTimer (comp (onMountCleanup w)) = 0%nat.
Proof.
  intros [Hq Hi]. unfold onMountCleanup, stopAuto, cancelAnimationFrame.
  cbn [comp frameRequests intervals observing listening].
  assert (Eq : filter (fun i => negb (Nat.eqb i (raf (comp w))))
                 (frameRequests w) = []).
  { destruct Hq as [->| ->]; [reflexivity|]. cbn.
    now rewrite Nat.eqb_refl. }
  destruct Hi as [E|[E Hnz]].
  - destruct (negb (Nat.eqb (autoTimer (comp w)) 0)); cbn;
      rewrite ?E, Eq; repeat split.
  - apply Nat.eqb_neq in Hnz. rewrite Hnz. cbn. rewrite E, Eq. cbn.
    rewrite Nat.eqb_refl. repeat split.
Qed.

Lemma dispatch_inert (e : Event) (w : World) :
  frameRequests w = [] -> intervals w = [] ->
  observing w = false -> listening w = false ->
  dispatch Math_exp Math_hypot Math_sin Math_cos P e w = Some w.
Proof.
  intros Hq Hi Ho Hl. destruct e; cbn [dispatch].
  - now rewrite animationFrame_idle.
  - now rewrite Hi.
  - now rewrite Hl.
  - now rewrite Hl.
  - now rewrite Ho.
Qed.

Lemma run_inert (es : list Event) (w : World) :
  frameRequests w = [] -> intervals w = [] ->
  observing w = false -> listening w = false ->
  run Math_exp Math_hypot Math_sin Math_cos P es w = Some w.
Proof.
  intros Hq Hi Ho Hl. induction es as [|e es IH]; [reflexivity|].
  cbn [run]. now rewrite dispatch_inert.
Qed.

(** Unmounting at any moment releases everything: no frame request and no
    timer is left, observer and listeners are gone, and whatever the
    browser delivers afterwards changes nothing: no frame is painted and
    no ripple added. *)
Theorem unmount_releases_everything
    (host : Host) (reduce : bool) (t : Q) (es es' : list Event)
    (w1 w2 : World) :
  onMount Math_exp Math_hypot P host reduce t initialWorld = Some w1 ->
  run Math_exp Math_hypot Math_sin Math_cos P es w1 = Some w2 ->
  let w3 := onMountCleanup w2 in
  frameRequests w3 = [] /\ intervals w3 = [] /\
  observing w3 = false /\ listening w3 = false /\
  frames w3 = frames w2 /\ ripples (comp w3) = ripples (comp w2) /\
  run Math_exp Math_hypot Math_sin Math_cos P es' w3 = Some w3.
Proof.
  intros Hm Hr w3.
  pose proof (run_schedulerInv es w1 w2
                (onMount_schedulerInv host reduce t w1 Hm) Hr) as Hinv.
  destruct (cleanup_clears w2 Hinv) as (Hq & Hi & Ho & Hl & _).
  fold w3 in Hq, Hi, Ho, Hl.
  repeat split; try assumption.
  - unfold w3, onMountCleanup, stopAuto, cancelAnimationFrame. cbn.
    destruct (Nat.eqb (autoTimer (comp w2)) 0); reflexivity.
  - unfold w3, onMountCleanup, stopAuto, cancelAnimationFrame. cbn.
    destruct (Nat.eqb (autoTimer (comp w2)) 0); reflexivity.
  - now apply run_inert.
Qed.

End Lifecycle.

Lemma startAuto_single_timer_witness :
  nextHandle initialWorld <> 0%nat /\
  intervals (startAuto autoProps initialWorld) = [1%nat] /\
  autoTimer (comp (startAuto autoProps initialWorld)) = 1%nat.
Proof.
  assert (Hn : nextHandle initialWorld <> 0%nat) by discriminate.
  split; [exact Hn|].
  exact (proj1 (startAuto_single_timer autoProps initialWorld Hn
                  (or_introl eq_refl))).
Defined.


Lemma one_frame_request_one_timer_witness :
  exists w1 w2 : World,
    onMount exp_series hypot_axis autoProps host52 false 1000 initialWorld
    = Some w1 /\
    run exp_series hypot_axis sin_series cos_series autoProps session w1
    = Some w2 /\
    (frameRequests w2 = [] \/ frameRequests w2 = [raf (comp w2)]) /\
    (intervals w2 = [] \/
     (intervals w2 = [autoTimer (comp w2)] /\ autoTimer (comp w2) <> 0%nat)).
Proof.
  destruct (onMount exp_series hypot_axis autoProps host52 false 1000
              initialWorld) as [w1|] eqn:Hm.
  2:{ vm_compute in Hm. discriminate. }
  destruct (run exp_series hypot_axis sin_series cos_series autoProps
              session w1) as [w2|] eqn:Hr.
  2:{ exfalso. vm_compute in Hm. injection Hm as <-.
      vm_compute in Hr. discriminate. }
  exists w1, w2. split; [reflexivity|]. split; [exact Hr|].
  exact (one_frame_request_one_timer exp_series hypot_axis sin_series
           cos_series autoProps host52 false 1000 session w1 w2 Hm Hr).
Defined.

Lemma unmount_releases_everything_witness :
  exists w1 w2 : World,
    onMount exp_series hypot_axis autoProps host52 false 1000 initialWorld
    = Some w1 /\
    run exp_series hypot_axis sin_series cos_series autoProps session w1
    = Some w2 /\
    frameRequests (onMountCleanup w2) = [] /\
    intervals (onMountCleanup w2) = [] /\
    run exp_series hypot_axis sin_series cos_series autoProps session
      (onMountCleanup w2) = Some (onMountCleanup w2).
Proof.
  destruct (onMount exp_series hypot_axis autoProps host52 false 1000
              initialWorld) as [w1|] eqn:Hm.
  2:{ vm_compute in Hm. discriminate. }
  destruct (run exp_series hypot_axis sin_series cos_series autoProps
              session w1) as [w2|] eqn:Hr.
  2:{ exfalso. vm_compute in Hm. injection Hm as <-.
      vm_compute in Hr. discriminate. }
  exists w1, w2. split; [reflexivity|]. split; [exact Hr|].
  pose proof (unmount_releases_everything exp_series hypot_axis sin_series
                cos_series autoProps host52 false 1000 session session w1 w2
                Hm Hr) as (Hq & Hi & _ & _ & _ & _ & Hrun).
  split; [exact Hq|]. split; [exact Hi|exact Hrun].
Defined.

Lemma draw_touches_only_raf_witness :
  ctx (comp initialWorld) = false /\
  draw exp_series hypot_axis defaultProps 16 initialWorld = initialWorld.
Proof.
  split; [reflexivity|].
  exact (proj2 (proj2 (proj2
    (draw_touches_only_raf exp_series hypot_axis defaultProps 16
       initialWorld))) eq_refl).
Defined.
